(** * Benford's-law helpers: a shallow embedding of [bendfords_law/helpers.py]

    The development follows the source file top to bottom:
    - Python values, exceptions and the evaluation order of comprehensions;
    - [int_to_digits] and [get_digits];
    - IEEE-754 binary64 (NumPy's [float64]) through [SpecFloat];
    - [bendford_dist] and [bendford_dist_];
    - [fib_number] behind its [lru_cache], and [fib_sequence];
    - [digit_occurrences].
    Definitions come first, the theorems about them afterwards. *)

From Stdlib Require Import ZArith Ascii String Floats.SpecFloat.
From stdpp Require Import gmap list sorting pretty.

Local Open Scope Z_scope.

(** ** Python exceptions and results *)

Inductive exn : Type :=
  | ValueError
  | TypeError
  | IndexError
  | OverflowError.

(** A call either returns a value or raises. *)
Inductive outcome (A : Type) : Type :=
  | Returns (a : A)
  | Raises (e : exn).
Arguments Returns {A} a.
Arguments Raises {A} e.

Global Instance outcome_ret : MRet outcome := λ A a, Returns a.
Global Instance outcome_bind : MBind outcome := λ A B k m,
  match m with
  | Returns a => k a
  | Raises e => Raises e
  end.

(** [[f x for x in xs]]: elements are evaluated left to right and the first
    exception aborts the comprehension. *)
Fixpoint comprehension {A B} (f : A → outcome B) (xs : list A) : outcome (list B) :=
  match xs with
  | [] => Returns []
  | x :: rest =>
      y ← f x;
      ys ← comprehension f rest;
      Returns (y :: ys)
  end.

(** [l[i]] on a Python list: negative indices count from the end, anything
    outside [-len, len) raises [IndexError]. *)
Definition py_index {A} (l : list A) (i : Z) : outcome A :=
  let len := Z.of_nat (length l) in
  let pos := if i <? 0 then len + i else i in
  if (0 <=? pos) && (pos <? len) then
    match l !! Z.to_nat pos with
    | Some x => Returns x
    | None => Raises IndexError
    end
  else Raises IndexError.

(** ** Python values reaching the digit functions *)

Inductive pyval : Type :=
  | PyInt (z : Z)          (* int *)
  | PyBool (b : bool)      (* bool, a subclass of int *)
  | NpInteger (z : Z)      (* an np.integer scalar, e.g. an item of an integer ndarray *)
  | PyOther (text : string).
      (* any object that is neither int nor np.integer (float, np.float64,
         str, None, ...), carried by the ASCII text str() gives for it *)

(** [isinstance(number, (int, np.integer))] *)
Definition isinstance_int (v : pyval) : bool :=
  match v with
  | PyInt _ | PyBool _ | NpInteger _ => true
  | PyOther _ => false
  end.

(** CPython's default limit on the number of digits of an integer that
    [str] converts ([sys.get_int_max_str_digits()]). *)
Definition int_max_str_digits : nat := 4300.

(** [str(z)] for an integer: decimal with a leading minus sign; an integer
    with more digits than the limit raises [ValueError]. *)
Definition str_of_int (z : Z) : outcome string :=
  if (int_max_str_digits <? String.length (pretty (Z.abs z)))%nat
  then Raises ValueError
  else Returns (pretty z).

(** [str(v)]. (An [np.integer] has at most 64 bits and never reaches the
    limit.) *)
Definition py_str (v : pyval) : outcome string :=
  match v with
  | PyInt z | NpInteger z => str_of_int z
  | PyBool true => Returns "True"
  | PyBool false => Returns "False"
  | PyOther text => Returns text
  end.

(** [int(c)] for a one-character string, on the ASCII characters the
    texts of the model are made of. *)
Definition py_int_of_char (c : ascii) : outcome Z :=
  let code := Z.of_N (N_of_ascii c) in
  if (48 <=? code) && (code <=? 57) then Returns (code - 48)
  else Raises ValueError.

(** ** [int_to_digits] and [get_digits] *)

Definition int_to_digits (integer : pyval) : outcome (list Z) :=
  text ← py_str integer;
  comprehension py_int_of_char (list_ascii_of_string text).

Definition get_digits (number : pyval) (indices : list Z) : outcome (list Z) :=
  if negb (isinstance_int number) then Raises ValueError
  else
    digits ← int_to_digits number;
    comprehension (py_index digits) indices.

(** The integer held by an [int] or [np.integer] value. *)
Definition int_value (v : pyval) : option Z :=
  match v with
  | PyInt z | NpInteger z => Some z
  | _ => None
  end.

(** The characters "0" to "9". *)
Definition is_digit_char (c : ascii) : Prop :=
  48 ≤ Z.of_N (N_of_ascii c) ≤ 57.

(** ** Decimal size of a non-negative integer

    [at_most_digits n k]: the decimal numeral of [n] has at most [k] digits. *)
Definition at_most_digits (n k : Z) : Prop := 1 ≤ k ∧ 0 ≤ n < 10 ^ k.

(** ** IEEE-754 binary64, NumPy's [float64]

    Values are [spec_float]s at precision 53 and maximal exponent 1024;
    conversions and arithmetic round to nearest, ties to even. *)

Definition f64 : Type := spec_float.

Definition f64_of_Z (z : Z) : f64 := binary_normalize 53 1024 z 0 false.
Definition f64_add (x y : f64) : f64 := SFadd 53 1024 x y.
Definition f64_div (x y : f64) : f64 := SFdiv 53 1024 x y.

Definition f64_zero : f64 := S754_zero false.
Definition f64_inf : f64 := S754_infinity false.

(** The exact value of a float that holds an integer. *)
Definition f64_to_Z (x : f64) : option Z :=
  match x with
  | S754_zero _ => Some 0
  | S754_finite s m e =>
      if 0 <=? e then Some (cond_Zopp s (Z.pos m) * 2 ^ e)
      else if Z.pos m mod 2 ^ (- e) =? 0
           then Some (cond_Zopp s (Z.pos m / 2 ^ (- e)))
           else None
  | _ => None
  end.

(** [abs(x - y) <= tolerance] on doubles. *)
Definition f64_within (x y tolerance : f64) : bool :=
  SFleb (SFabs (SFsub 53 1024 x y)) tolerance.

(** The sum of a float64 array accumulated from 0.0, the value of
    [sum] on the empty array. *)
Definition float_sum (a : list f64) : f64 := foldl f64_add f64_zero a.

(** A finite double above zero. *)
Definition f64_positive_finite (x : f64) : bool :=
  match x with
  | S754_finite false _ _ => true
  | _ => false
  end.

(** Storing a Python int into a float64 slot: [float(z)], which raises
    [OverflowError] instead of producing an infinity. *)
Definition float_of_int (z : Z) : outcome f64 :=
  match f64_of_Z z with
  | S754_infinity _ => Raises OverflowError
  | x => Returns x
  end.

(** Whether [float(z)] exists, and whether it is [z] itself. *)
Definition int_fits_f64 (z : Z) : bool :=
  match f64_of_Z z with
  | S754_infinity _ => false
  | _ => true
  end.
Definition int_exact_in_f64 (z : Z) : bool :=
  match f64_to_Z (f64_of_Z z) with
  | Some z' => z =? z'
  | None => false
  end.

(** ** 64-bit integers, NumPy's default integer type *)

Definition wrap64 (z : Z) : Z := (z + 2 ^ 63) mod 2 ^ 64 - 2 ^ 63.

(** [np.power(b, e)] on Python ints, for [0 <= e]: int64 arithmetic that
    wraps around silently. *)
Definition np_power (b e : Z) : Z := wrap64 (b ^ e).

(** [np.arange(start, stop)] on int64 scalars. NumPy takes the length from
    [stop - start] computed in int64 (wrapping), divided by the step 1 in
    float64 and rounded up; a length that is not positive gives the empty
    array, a length whose 8-byte items exceed the largest array size raises
    [ValueError], and the items are [start], [start + 1], ... in int64.
    (An allocation the machine cannot satisfy, [MemoryError], is a matter
    of the machine and outside the model.) *)
Definition np_arange (start stop : Z) : outcome (list Z) :=
  let span := wrap64 (stop - start) in
  match f64_to_Z (f64_of_Z span) with
  | None => Raises ValueError
  | Some length =>
      if length <=? 0 then Returns []
      else if 2 ^ 63 - 1 <? 8 * length then Raises ValueError
      else Returns ((λ i, wrap64 (start + i)) <$> seqZ 0 length)
  end.

(** ** Theoretical distributions *)

Section Libm.
(** The C library's [log] and [log10] on finite positive doubles. *)
Variables libm_log libm_log10 : f64 → f64.

(** The values at the special arguments are fixed by IEEE 754 / C99
    Annex F, which NumPy follows. *)
Definition special_log (finite_case : f64 → f64) (x : f64) : f64 :=
  match x with
  | S754_nan => S754_nan
  | S754_infinity false => S754_infinity false
  | S754_infinity true => S754_nan
  | S754_zero _ => S754_infinity true
  | S754_finite true _ _ => S754_nan
  | S754_finite false _ _ => finite_case x
  end.

Definition np_log : f64 → f64 := special_log libm_log.
Definition np_log10 : f64 → f64 := special_log libm_log10.

(** [c / a] for an integer array [a]: true division in float64. *)
Definition int_rdiv (c : Z) (a : list Z) : list f64 :=
  (λ g, f64_div (f64_of_Z c) (f64_of_Z g)) <$> a.
(** [c + a] for a float array [a]. *)
Definition float_radd (c : Z) (a : list f64) : list f64 :=
  (λ x, f64_add (f64_of_Z c) x) <$> a.

(** The inner function [log_n] of [bendford_dist]. *)
Definition log_n (x : list f64) (n : Z) : list f64 :=
  (λ v, f64_div (np_log v) (np_log (f64_of_Z n))) <$> x.

Definition bendford_dist (digits : list Z) : list f64 :=
  log_n (float_radd 1 (int_rdiv 1 digits)) 10.

Definition bendford_dist_ (order : Z) : outcome (list f64) :=
  if order <? 1 then Raises ValueError
  else
    digit_combinations ←
      np_arange (np_power 10 (order - 1)) (np_power 10 order);
    Returns (np_log10 <$> float_radd 1 (int_rdiv 1 digit_combinations)).

(** The probability Benford's law gives to the digit group [g],
    log10(1 + 1/g), in float64. *)
Definition benford_probability (g : Z) : f64 :=
  np_log10 (f64_add (f64_of_Z 1) (f64_div (f64_of_Z 1) (f64_of_Z g))).
End Libm.

(** ** Fibonacci numbers *)

(** The recurrence F(0)=0, F(1)=1, F(n)=F(n-1)+F(n-2). *)
Fixpoint F (n : nat) : Z :=
  match n with
  | O => 0
  | S m => match m with
           | O => 1
           | S k => F m + F k
           end
  end.

(** The same numbers computed bottom-up, for evaluation. *)
Fixpoint F_pair (n : nat) : Z * Z :=
  match n with
  | O => (0, 1)
  | S m => let '(a, b) := F_pair m in (b, a + b)
  end.

(** A call that reads and updates the [lru_cache] table of [fib_number];
    [None] stands for a recursion deeper than the fuel allows. *)
Definition call (A : Type) : Type := gmap Z Z → option (outcome A * gmap Z Z).

Global Instance call_ret : MRet call := λ A a cache, Some (Returns a, cache).
Global Instance call_bind : MBind call := λ A B k m cache,
  match m cache with
  | None => None
  | Some (Raises e, cache') => Some (Raises e, cache')
  | Some (Returns a, cache') => k a cache'
  end.
Definition raise {A} (e : exn) : call A := λ cache, Some (Raises e, cache).
Definition lift {A} (r : outcome A) : call A := λ cache, Some (r, cache).

(** [@lru_cache(None)]: a hit returns the stored value; a miss runs the
    body and stores what it returns; an exception stores nothing. *)
Definition lru_cache (body : Z → call Z) (n : Z) : call Z :=
  λ cache,
    match cache !! n with
    | Some v => Some (Returns v, cache)
    | None =>
        match body n cache with
        | Some (Returns v, cache') => Some (Returns v, <[n := v]> cache')
        | other => other
        end
    end.

Fixpoint fib_number (fuel : nat) (n : Z) : call Z :=
  match fuel with
  | O => λ cache,
      match cache !! n with
      | Some v => Some (Returns v, cache)
      | None => None
      end
  | S fuel' =>
      lru_cache (λ n,
        if n <? 0 then raise ValueError
        else if n <? 2 then mret n
        else
          a ← fib_number fuel' (n - 1);
          b ← fib_number fuel' (n - 2);
          mret (a + b)) n
  end.

(** The tables [fib_number] can have built: entries at non-negative indices
    holding the Fibonacci number of the index. *)
Definition cache_valid (cache : gmap Z Z) : Prop :=
  ∀ k v, cache !! k = Some v → 0 ≤ k ∧ v = F (Z.to_nat k).

(** The loop of [fib_sequence] over the remaining indices. *)
Fixpoint fill_sequence (fuel : nat) (indices : list Z) (sequence : list f64)
  : call (list f64) :=
  match indices with
  | [] => mret sequence
  | i_element :: rest =>
      x ← fib_number fuel i_element;
      v ← lift (float_of_int x);
      fill_sequence fuel rest (<[Z.to_nat i_element := v]> sequence)
  end.

Definition fib_sequence (fuel : nat) (n_elements : Z) : call (list f64) :=
  if n_elements <? 0 then raise ValueError   (* np.zeros: negative dimensions *)
  else
    fill_sequence fuel (seqZ 0 n_elements)
      (replicate (Z.to_nat n_elements) f64_zero).

(** ** Empirical digit counts *)

(** [collections.Counter(xs)] *)
Definition Counter (xs : list Z) : gmap Z Z :=
  foldl (λ counter x, <[x := default 0 (counter !! x) + 1]> counter) ∅ xs.

(** The order [sorted(..., key=lambda tup: tup[0])] sorts by. *)
Definition key_le (p q : Z * Z) : Prop := p.1 ≤ q.1.
Global Instance key_le_dec : RelDecision key_le.
Proof. intros p q. unfold key_le. apply _. Defined.

(** [np.array(pairs)] for a list of 2-tuples: an (n, 2) array, but the
    one-dimensional empty array when the list is empty. *)
Inductive ndarray : Type :=
  | Array1D (items : list Z)
  | Array2D (rows : list (Z * Z)).

Definition np_array (pairs : list (Z * Z)) : ndarray :=
  match pairs with
  | [] => Array1D []
  | _ => Array2D pairs
  end.

(** [a[:, j]] for [j] in {0, 1}; a one-dimensional array has no second axis. *)
Definition column (a : ndarray) (j : nat) : outcome (list Z) :=
  match a with
  | Array1D _ => Raises IndexError
  | Array2D rows =>
      match j with
      | O => Returns (rows.*1)
      | S O => Returns (rows.*2)
      | _ => Raises IndexError
      end
  end.

(** How often [d] occurs in [ds]. *)
Definition occurrences_of (d : Z) (ds : list Z) : Z :=
  Z.of_nat (length (filter (λ x, x = d) ds)).

(** [a.sum()] of an integer array. *)
Definition np_sum (a : list Z) : Z := foldr Z.add 0 a.

(** A digit the counter keeps: digit 0 is dropped when [exclude_zero] is set. *)
Definition counted (exclude_zero : bool) (d : Z) : Prop :=
  ¬ (exclude_zero = true ∧ d = 0).
Global Instance counted_dec exclude_zero d : Decision (counted exclude_zero d).
Proof. unfold counted. apply _. Defined.

Definition first_digits (sequence : list pyval) (digit_index : Z) : outcome (list Z) :=
  comprehension
    (λ number, ds ← get_digits number [digit_index]; py_index ds 0)
    sequence.

Definition tally (first_digits_list : list Z) (exclude_zero : bool) : gmap Z Z :=
  let digit_counter := Counter first_digits_list in
  if exclude_zero then delete 0 digit_counter else digit_counter.

Definition digit_occurrences
    (sequence : list pyval) (digit_index : Z) (exclude_zero : bool)
  : outcome (list Z * list Z) :=
  first_digits_list ← first_digits sequence digit_index;
  let digit_counter := tally first_digits_list exclude_zero in
  let sorted_pairs := merge_sort key_le (map_to_list digit_counter) in
  let digit_occurrence_array := np_array sorted_pairs in
  digits ← column digit_occurrence_array 0;
  occurrences ← column digit_occurrence_array 1;
  Returns (digits, occurrences).

(** ** Positional value of a digit list *)

(** The integer a list of decimal digits, most significant first, denotes:
    what [int("".join(map(str, digits)))] reparses. *)
Definition digits_value (digits : list Z) : Z :=
  foldl (λ acc d, 10 * acc + d) 0 digits.

(** The digit a character stands for. *)
Definition digit_of_char (c : ascii) : Z := Z.of_N (N_of_ascii c) - 48.

(** The position a Python index [i] selects in a list of length [len]. *)
Definition py_position (len i : Z) : Z := if i <? 0 then len + i else i.


(** ** Plot titles and the comparison figure *)

(** The double-quote character of the HTML attribute. *)
Definition double_quote : string := String "034"%char EmptyString.

(** [_format_title]; [if not subtitle] holds for [None] and for the empty
    string. *)
Definition _format_title
    (title : string) (subtitle : option string) (subtitle_font_size : Z) : string :=
  let title := "<b>" +:+ title +:+ "</b>" in
  match subtitle with
  | None | Some EmptyString => title
  | Some subtitle =>
      let subtitle :=
        "<span style=" +:+ double_quote +:+ "font-size: "
        +:+ pretty subtitle_font_size +:+ "px;" +:+ double_quote +:+ ">"
        +:+ subtitle +:+ "</span>" in
      title +:+ "<br>" +:+ subtitle
  end.

(** What the plotting library is handed: a [go.Scatter] trace, the legend
    placement and the layout of a [go.Figure]. *)
Record scatter : Type := Scatter {
  scatter_x : list Z;
  scatter_y : list f64;
  scatter_name : string;
  scatter_line_color : string
}.

Record legend : Type := Legend {
  legend_yanchor : string;
  legend_y : f64;
  legend_xanchor : string;
  legend_x : f64
}.

Record layout : Type := Layout {
  layout_title : option string;
  layout_xaxis_title : string;
  layout_yaxis_title : string;
  layout_template : string;
  layout_width : Z;
  layout_height : Z;
  layout_legend : legend
}.

Record figure : Type := Figure {
  figure_traces : list scatter;
  figure_layout : layout
}.

(** [a / total] for an integer array and an integer: true division. *)
Definition int_div_scalar (a : list Z) (total : Z) : list f64 :=
  (λ c, f64_div (f64_of_Z c) (f64_of_Z total)) <$> a.

Section Figures.
(** The C library's [log] on finite positive doubles. *)
Variable libm_log : f64 → f64.
(** The plotting library's validators: which strings it accepts as a colour
    and as a template name. Anything else makes it raise [ValueError], as
    does a width or height below 10. *)
Variables plotly_color plotly_template : string → bool.

Definition plotly_accepts (color template : string) (width height : Z) : bool :=
  plotly_color color && plotly_template template
  && (10 <=? width) && (10 <=? height).

Definition _create_comparison_figure
    (digits occurrences : list Z) (trace_label : string)
    (title subtitle : option string) (color template : string)
    (width height : Z) : outcome figure :=
  if negb (plotly_accepts color template width height) then Raises ValueError
  else Returns
  {| figure_traces :=
       [ {| scatter_x := digits;
            scatter_y := bendford_dist libm_log digits;
            scatter_name := "Bendford's Law.";
            scatter_line_color := color |};
         {| scatter_x := digits;
            scatter_y := int_div_scalar occurrences (np_sum occurrences);
            scatter_name := trace_label;
            scatter_line_color := "MediumPurple" |} ];
     figure_layout :=
       {| layout_title :=
            match title with
            | None | Some EmptyString => None
            | Some title => Some (_format_title title subtitle 14)
            end;
          layout_xaxis_title := "Digit";
          layout_yaxis_title := "Probability";
          layout_template := template;
          layout_width := width;
          layout_height := height;
          layout_legend :=
            {| legend_yanchor := "top";
               legend_y := f64_div (f64_of_Z 99) (f64_of_Z 100);   (* 0.99 *)
               legend_xanchor := "left";
               legend_x := f64_div (f64_of_Z 85) (f64_of_Z 100) |}  (* 0.85 *)
       |} |}.

Definition bendford_comparison_figure
    (sequence : list pyval) (legend : string) (title : string)
    (display_count : bool) (color template : string) (width height : Z)
  : outcome figure :=
  '(digits, occurrences) ← digit_occurrences sequence 0 true;
  let subtitle :=
    if display_count then "N = " +:+ pretty (np_sum occurrences) +:+ "."
    else "" in
  _create_comparison_figure digits occurrences legend
    (Some title) (Some subtitle) color template width height.
End Figures.

(** A stand-in for the plotting library's validators in the worked
    examples: two colours and one template are accepted. *)
Definition sample_color (color : string) : bool :=
  bool_decide (color ∈ ["red"; "MediumPurple"]).
Definition sample_template (template : string) : bool :=
  bool_decide (template = "plotly_white").


(** ** Items of a float64 array *)

(** Iterating over a float64 ndarray yields [np.float64] scalars, which are
    neither [int] nor [np.integer]; [float_str] is the text [str] prints
    for a double. *)
Definition float64_items (float_str : f64 → string) (a : list f64) : list pyval :=
  (λ x, PyOther (float_str x)) <$> a.

(** * Properties *)

(** ** Worked examples from the test-suite *)

Example int_to_digits_8978 : int_to_digits (PyInt 8978) = Returns [8; 9; 7; 8].
Proof. reflexivity. Qed.
Example get_digits_first : get_digits (PyInt 505) [0] = Returns [5].
Proof. reflexivity. Qed.
Example get_digits_last : get_digits (NpInteger 8978) [-1; 1] = Returns [8; 9].
Proof. reflexivity. Qed.
Example get_digits_7_2 : get_digits (PyInt 7) [2] = Raises IndexError.
Proof. reflexivity. Qed.
Example get_digits_neg : get_digits (PyInt (-7)) [0] = Raises ValueError.
Proof. reflexivity. Qed.
Example get_digits_bool : get_digits (PyBool true) [0] = Raises ValueError.
Proof. reflexivity. Qed.
Example get_digits_float : get_digits (PyOther "1.5") [0] = Raises ValueError.
Proof. reflexivity. Qed.

Example fib_sequence_10 :
  fib_sequence 2 10 ∅ =
  Some (Returns (f64_of_Z <$> [0; 1; 1; 2; 3; 5; 8; 13; 21; 34]),
        list_to_map ((λ i, (Z.of_nat i, F i)) <$> seq 0 10)).
Proof. vm_compute. reflexivity. Qed.

Example digit_occurrences_hundreds :
  digit_occurrences (NpInteger <$> [0; 100; 200; 300; 400; 500; 600; 700; 800; 900]) 0 true
  = Returns ([1; 2; 3; 4; 5; 6; 7; 8; 9], [1; 1; 1; 1; 1; 1; 1; 1; 1]).
Proof. vm_compute. reflexivity. Qed.

Example digit_occurrences_empty : digit_occurrences [] 0 true = Raises IndexError.
Proof. vm_compute. reflexivity. Qed.

(** ** Comprehensions and indexing *)

Lemma comprehension_returns_length {A B} (f : A → outcome B) xs ys :
  comprehension f xs = Returns ys → length ys = length xs.
Proof.
  revert ys. induction xs as [|x xs IH]; intros ys; simpl.
  - by intros [= <-].
  - destruct (f x) as [y|e]; simpl; [|done].
    destruct (comprehension f xs) as [ys'|e]; simpl; [|done].
    intros [= <-]. simpl. f_equal. by apply IH.
Qed.

Lemma comprehension_returns_lookup {A B} (f : A → outcome B) xs ys i x :
  comprehension f xs = Returns ys → xs !! i = Some x →
  ∃ y, ys !! i = Some y ∧ f x = Returns y.
Proof.
  revert ys i. induction xs as [|x' xs IH]; intros ys i; simpl; [done|].
  destruct (f x') as [y'|e] eqn:Hf; simpl; [|done].
  destruct (comprehension f xs) as [ys'|e]; simpl; [|done].
  intros [= <-]. destruct i as [|i]; simpl.
  - intros [= ->]. eauto.
  - by apply IH.
Qed.

Lemma comprehension_all_return {A B} (f : A → outcome B) (g : A → B) xs :
  Forall (λ x, f x = Returns (g x)) xs → comprehension f xs = Returns (g <$> xs).
Proof.
  induction 1 as [|x xs Hx _ IH]; simpl; [done|]. by rewrite Hx, IH.
Qed.

(** If every element either returns or raises [e], and some element raises
    [e], the comprehension raises [e]. *)
Lemma comprehension_raises {A B} (f : A → outcome B) e xs :
  Forall (λ x, f x = Raises e ∨ ∃ y, f x = Returns y) xs →
  Exists (λ x, f x = Raises e) xs →
  comprehension f xs = Raises e.
Proof.
  induction 1 as [|x xs Hx _ IH]; intros Hex; [by inversion Hex|].
  simpl. destruct Hx as [->|[y Hy]]; [done|].
  rewrite Hy. simpl. inversion Hex as [?? Hbad|?? Hrest]; subst.
  - congruence.
  - by rewrite IH.
Qed.

Lemma py_index_cases {A} (l : list A) i :
  py_index l i = Raises IndexError ∨ ∃ x, py_index l i = Returns x.
Proof.
  unfold py_index.
  destruct (_ && _); [|by left].
  destruct (l !! _); [right; eauto|by left].
Qed.

Lemma py_index_beyond {A} (l : list A) i :
  Z.of_nat (length l) ≤ i → py_index l i = Raises IndexError.
Proof.
  intros Hi. unfold py_index.
  assert ((i <? 0) = false) as -> by lia.
  assert ((0 <=? i) && (i <? Z.of_nat (length l)) = false) as ->; [|done].
  apply andb_false_iff. right. lia.
Qed.

Lemma py_index_singleton {A} (x : A) : py_index [x] 0 = Returns x.
Proof. reflexivity. Qed.

(** ** The decimal numeral of an integer *)

Lemma py_int_of_char_digit c :
  is_digit_char c → py_int_of_char c = Returns (Z.of_N (N_of_ascii c) - 48).
Proof.
  intros [??]. unfold py_int_of_char.
  assert ((48 <=? Z.of_N (N_of_ascii c)) && (Z.of_N (N_of_ascii c) <=? 57) = true)
    as ->; [|done].
  apply andb_true_iff. lia.
Qed.

Lemma pretty_N_char_is_digit x : is_digit_char (pretty_N_char x).
Proof.
  unfold is_digit_char, pretty_N_char.
  repeat case_match; vm_compute; split; intros ?; discriminate.
Qed.

Lemma pretty_N_go_digits x s :
  Forall is_digit_char (list_ascii_of_string s) →
  Forall is_digit_char (list_ascii_of_string (pretty_N_go x s)).
Proof.
  revert s. induction (N.lt_wf_0 x) as [x _ IH]; intros s Hs.
  destruct (decide (x = 0)%N) as [->|Hx]; [by rewrite pretty_N_go_0|].
  rewrite pretty_N_go_step by lia.
  apply IH; [apply N.div_lt; lia|].
  simpl. constructor; [apply pretty_N_char_is_digit|done].
Qed.

Lemma pretty_N_go_length_ge x s :
  (String.length s ≤ String.length (pretty_N_go x s))%nat.
Proof.
  revert s. induction (N.lt_wf_0 x) as [x _ IH]; intros s.
  destruct (decide (x = 0)%N) as [->|Hx]; [by rewrite pretty_N_go_0|].
  rewrite pretty_N_go_step by lia.
  etrans; [|apply IH; apply N.div_lt; lia]. simpl. lia.
Qed.

(** The numeral of [x > 0] adds at most [k] characters exactly when
    [x < 10 ^ k]. *)
Lemma pretty_N_go_length x s (k : nat) :
  (0 < x)%N →
  (String.length (pretty_N_go x s) ≤ String.length s + k)%nat ↔
  (x < 10 ^ N.of_nat k)%N.
Proof.
  revert s k. induction (N.lt_wf_0 x) as [x _ IH]; intros s k Hx.
  rewrite pretty_N_go_step by done.
  destruct k as [|k].
  - pose proof (pretty_N_go_length_ge (x `div` 10)
      (String (pretty_N_char (x `mod` 10)) s)) as Hge.
    simpl in Hge. simpl (10 ^ N.of_nat 0)%N. split; lia.
  - destruct (decide (x `div` 10 = 0)%N) as [Hq|Hq].
    + rewrite Hq, pretty_N_go_0. simpl String.length.
      apply N.div_small_iff in Hq; [|done].
      assert (10 ^ 1 ≤ 10 ^ N.of_nat (S k))%N
        by (apply N.pow_le_mono_r; lia).
      change (10 ^ 1)%N with 10%N in *. split; lia.
    + replace (String.length s + S k)%nat
        with (String.length (String (pretty_N_char (x `mod` 10)) s) + k)%nat
        by (simpl; lia).
      rewrite IH; [|apply N.div_lt; lia|by apply N.neq_0_lt_0].
      replace (N.of_nat (S k)) with (N.succ (N.of_nat k)) by lia.
      rewrite N.pow_succ_r'. split; intros H.
      * pose proof (N.div_mod x 10). pose proof (N.mod_lt x 10). lia.
      * apply N.Div0.div_lt_upper_bound. lia.
Qed.

Lemma length_list_ascii_of_string s :
  length (list_ascii_of_string s) = String.length s.
Proof. induction s; simpl; congruence. Qed.

Lemma pretty_nonneg_digits n :
  0 ≤ n → Forall is_digit_char (list_ascii_of_string (pretty n)).
Proof.
  intros Hn. destruct n as [|p|p]; [|
    |lia].
  - repeat constructor; vm_compute; intros ?; discriminate.
  - change (pretty (Z.pos p)) with (pretty_N_go (N.pos p) "").
    apply pretty_N_go_digits. constructor.
Qed.

Lemma pretty_nonneg_length n k :
  at_most_digits n k ↔ 0 ≤ n ∧ (1 ≤ String.length (pretty n) ≤ Z.to_nat k)%nat.
Proof.
  unfold at_most_digits. destruct n as [|p|p]; [| |lia].
  - change (String.length (pretty 0)) with 1%nat.
    split; [lia|]. intros [_ ?]. split; [lia|]. split; [done|].
    apply Z.pow_pos_nonneg; lia.
  - change (pretty (Z.pos p)) with (pretty_N_go (N.pos p) "").
    pose proof (pretty_N_go_length (N.pos p) "" (Z.to_nat k) eq_refl) as Hlen.
    pose proof (pretty_N_go_length (N.pos p) "" 0 eq_refl) as Hlen0.
    simpl String.length in Hlen, Hlen0. simpl (10 ^ N.of_nat 0)%N in Hlen0.
    assert (Z.pos p < 10 ^ Z.of_nat (Z.to_nat k) ↔
            (N.pos p < 10 ^ N.of_nat (Z.to_nat k))%N) as Hpow.
    { rewrite <-(N2Z.id (N.of_nat (Z.to_nat k))), <-positive_N_Z.
      rewrite N2Z.inj_lt, N2Z.inj_pow. rewrite !N2Z.id. rewrite nat_N_Z. done. }
    split.
    + intros [Hk [_ Hlt]]. split; [lia|]. split; [lia|].
      apply Hlen, Hpow. by rewrite Z2Nat.id by lia.
    + intros [_ [_ Hle]].
      assert (1 ≤ k) as Hk.
      { destruct (decide (1 ≤ k)); [done|].
        replace (Z.to_nat k) with 0%nat in * by lia. lia. }
      split; [done|]. split; [lia|].
      apply Hlen, Hpow in Hle. by rewrite Z2Nat.id in Hle by lia.
Qed.

(** ** The limit of [str] on integers *)

Lemma str_of_int_printable n :
  0 ≤ n → n < 10 ^ 4300 → str_of_int n = Returns (pretty n).
Proof.
  intros Hn Hlimit. unfold str_of_int. rewrite Z.abs_eq by done.
  assert (at_most_digits n 4300) as Hsize by (split; [lia|by split]).
  apply pretty_nonneg_length in Hsize as [_ [_ Hlen]].
  change (Z.to_nat 4300) with int_max_str_digits in Hlen.
  by rewrite (proj2 (Nat.ltb_ge _ _) Hlen).
Qed.

Lemma str_of_int_too_long n :
  10 ^ 4300 ≤ n → str_of_int n = Raises ValueError.
Proof.
  intros Hlimit.
  assert (0 ≤ n) as Hn.
  { etrans; [|exact Hlimit]. apply Z.pow_nonneg. lia. }
  unfold str_of_int. rewrite Z.abs_eq by done.
  destruct (int_max_str_digits <? String.length (pretty n))%nat eqn:Hlen; [done|].
  apply Nat.ltb_ge in Hlen.
  assert (at_most_digits n 4300) as [_ [_ Hsize]].
  { apply pretty_nonneg_length. split; [done|]. split; [|exact Hlen].
    destruct n as [|p|p]; [by vm_compute| |lia].
    change (pretty (Z.pos p)) with (pretty_N_go (N.pos p) "").
    destruct (decide (1 ≤ String.length (pretty_N_go (N.pos p) ""))%nat) as [|Hshort];
      [done|].
    pose proof (proj1 (pretty_N_go_length (N.pos p) "" 0 eq_refl)) as Hzero.
    simpl String.length in Hzero. specialize (Hzero ltac:(lia)).
    simpl in Hzero. lia. }
  exfalso. by apply Z.lt_nge in Hsize.
Qed.

Lemma str_of_int_returns n text :
  str_of_int n = Returns text → text = pretty n.
Proof. unfold str_of_int. destruct (_ <? _)%nat; [done|]. by intros [= <-]. Qed.

Lemma py_str_int v n : int_value v = Some n → py_str v = str_of_int n.
Proof. destruct v; simpl; try discriminate; by intros [= ->]. Qed.

(** An integer whose digits [int_to_digits] returned is within the limit. *)
Lemma int_to_digits_returns_bound v n ds :
  int_value v = Some n → 0 ≤ n → int_to_digits v = Returns ds → n < 10 ^ 4300.
Proof.
  intros Hv Hn. unfold int_to_digits. rewrite (py_str_int v n Hv).
  destruct (Z.lt_ge_cases n (10 ^ 4300)) as [|Hlong]; [done|].
  by rewrite (str_of_int_too_long n Hlong).
Qed.

(** A non-negative integer within the limit has as many digits as its
    numeral has characters, each between 0 and 9. *)
Lemma int_to_digits_nonneg v n :
  int_value v = Some n → 0 ≤ n → n < 10 ^ 4300 →
  ∃ ds, int_to_digits v = Returns ds
        ∧ length ds = String.length (pretty n)
        ∧ Forall (λ d, 0 ≤ d ≤ 9) ds.
Proof.
  intros Hv Hn Hlimit.
  unfold int_to_digits.
  rewrite (py_str_int v n Hv), (str_of_int_printable n Hn Hlimit).
  pose proof (pretty_nonneg_digits n Hn) as Hdigits.
  exists ((λ c, Z.of_N (N_of_ascii c) - 48) <$> list_ascii_of_string (pretty n)).
  split; [|split].
  - apply (comprehension_all_return py_int_of_char).
    eapply Forall_impl; [done|]. apply py_int_of_char_digit.
  - by rewrite length_fmap, length_list_ascii_of_string.
  - apply Forall_fmap. eapply Forall_impl; [done|].
    intros c [??]; simpl. lia.
Qed.

(** The digit list of a non-negative integer is no longer than [k] exactly
    when the integer is below [10 ^ k]. *)
Lemma int_to_digits_length v n k ds :
  int_value v = Some n → 0 ≤ n → int_to_digits v = Returns ds →
  at_most_digits n k ↔ (1 ≤ length ds ≤ Z.to_nat k)%nat.
Proof.
  intros Hv Hn Hds.
  pose proof (int_to_digits_returns_bound v n ds Hv Hn Hds) as Hlimit.
  destruct (int_to_digits_nonneg v n Hv Hn Hlimit) as (ds' & Hds' & Hlen & _).
  assert (ds' = ds) as -> by congruence.
  rewrite Hlen, pretty_nonneg_length.
  split; [by intros [_ ?]|by intros ?].
Qed.

(** ** [get_digits] *)

(** Past the [isinstance] test, [get_digits] indexes the digit list. *)
Lemma get_digits_of_digits v ds indices :
  isinstance_int v = true → int_to_digits v = Returns ds →
  get_digits v indices = comprehension (py_index ds) indices.
Proof. intros Hty Hds. unfold get_digits. by rewrite Hty, Hds. Qed.

Lemma get_digits_nonneg v n indices :
  int_value v = Some n → 0 ≤ n → n < 10 ^ 4300 →
  ∃ ds, int_to_digits v = Returns ds
        ∧ get_digits v indices = comprehension (py_index ds) indices.
Proof.
  intros Hv Hn Hlimit.
  destruct (int_to_digits_nonneg v n Hv Hn Hlimit) as (ds & Hds & _).
  exists ds. split; [done|]. apply get_digits_of_digits; [|done].
  by destruct v.
Qed.

Lemma get_digits_too_short v ds index indices :
  isinstance_int v = true → int_to_digits v = Returns ds →
  Z.of_nat (length ds) ≤ index → index ∈ indices →
  get_digits v indices = Raises IndexError.
Proof.
  intros Hty Hds Hshort Hin.
  rewrite (get_digits_of_digits v ds indices Hty Hds).
  apply comprehension_raises.
  - apply Forall_forall. intros i _. apply py_index_cases.
  - apply Exists_exists. exists index. split; [done|].
    by apply py_index_beyond.
Qed.

(** Where the digit list exists, a single digit is either found or the
    index is out of range. *)
Lemma first_digit_cases v ds digit_index :
  isinstance_int v = true → int_to_digits v = Returns ds →
  (l ← get_digits v [digit_index]; py_index l 0) = Raises IndexError
  ∨ ∃ d, (l ← get_digits v [digit_index]; py_index l 0) = Returns d.
Proof.
  intros Hty Hds.
  rewrite (get_digits_of_digits v ds [digit_index] Hty Hds).
  simpl. destruct (py_index_cases ds digit_index) as [->|[d ->]]; simpl; eauto.
Qed.

(** C2 — [get_digits] rejects a value that is not an [int] or
    [np.integer] instance by raising, before any digit is read; the
    exception it raises is [ValueError]. *)
Theorem get_digits_non_integral_ValueError (number : pyval) (indices : list Z) :
  isinstance_int number = false →
  get_digits number indices = Raises ValueError.
Proof. intros Hty. unfold get_digits. by rewrite Hty. Qed.

Lemma get_digits_non_integral_ValueError_witness :
  get_digits (PyOther "1.5") [0] = Raises ValueError.
Proof. apply get_digits_non_integral_ValueError. reflexivity. Defined.

(** C2 as worded asks for [TypeError]; a float argument shows otherwise. *)
Lemma get_digits_non_integral_not_TypeError :
  isinstance_int (PyOther "1.5") = false
  ∧ get_digits (PyOther "1.5") [0] ≠ Raises TypeError.
Proof. split; [reflexivity|]. vm_compute. discriminate. Qed.

(** C8 — for an integer whose digit list is [digits] (the list
    [int_to_digits] returns for it) and an index that is at least the digit
    count, [get_digits] raises [IndexError] whenever that index is
    requested, and [digit_occurrences] on a sequence of integers with digit
    lists that contains the integer raises the same [IndexError] instead of
    skipping or padding the element. *)
Theorem digit_index_out_of_range
    (number : pyval) (digits : list Z) (index : Z) (indices : list Z)
    (sequence : list pyval) (exclude_zero : bool) :
  isinstance_int number = true →
  int_to_digits number = Returns digits →
  Z.of_nat (length digits) ≤ index →
  (index ∈ indices → get_digits number indices = Raises IndexError)
  ∧ (Forall (λ v, isinstance_int v = true
                  ∧ ∃ ds, int_to_digits v = Returns ds) sequence →
     number ∈ sequence →
     digit_occurrences sequence index exclude_zero = Raises IndexError).
Proof.
  intros Hty Hdigits Hshort. split.
  - by apply (get_digits_too_short number digits index indices).
  - intros Hseq Hin. unfold digit_occurrences, first_digits.
    rewrite (comprehension_raises _ IndexError); [done| |].
    + eapply Forall_impl; [done|]. intros v (Hv & ds & Hds).
      by apply (first_digit_cases v ds).
    + apply Exists_exists. exists number. split; [done|].
      rewrite (get_digits_too_short number digits index [index]); [done..|].
      apply list_elem_of_singleton. done.
Qed.

Lemma digit_index_out_of_range_witness :
  get_digits (PyInt 7) [2] = Raises IndexError
  ∧ digit_occurrences [NpInteger 123; PyInt 7; NpInteger 456] 2 true
    = Raises IndexError.
Proof.
  destruct (digit_index_out_of_range (PyInt 7) [7] 2 [2]
              [NpInteger 123; PyInt 7; NpInteger 456] true) as [Hget Hocc].
  - reflexivity.
  - reflexivity.
  - simpl. lia.
  - split.
    + apply Hget. apply list_elem_of_singleton. reflexivity.
    + apply Hocc.
      * repeat constructor; eexists; reflexivity.
      * apply list_elem_of_In. simpl. tauto.
Defined.

(** ** [Counter] *)

Lemma Counter_snoc ds x :
  Counter (ds ++ [x]) = <[x := default 0 (Counter ds !! x) + 1]> (Counter ds).
Proof. unfold Counter. by rewrite foldl_snoc. Qed.

Lemma occurrences_of_snoc d ds x :
  occurrences_of d (ds ++ [x]) =
  occurrences_of d ds + (if decide (x = d) then 1 else 0).
Proof.
  unfold occurrences_of. rewrite filter_app, length_app.
  rewrite filter_cons, filter_nil. case_decide; simpl; lia.
Qed.

Lemma occurrences_of_nonneg d ds : 0 ≤ occurrences_of d ds.
Proof. unfold occurrences_of. lia. Qed.

Lemma occurrences_of_pos d ds : 0 < occurrences_of d ds ↔ d ∈ ds.
Proof.
  unfold occurrences_of. split.
  - intros Hpos. destruct (filter _ ds) as [|x l] eqn:Hf; [simpl in Hpos; lia|].
    assert (x ∈ filter (λ x, x = d) ds) as Hx by (rewrite Hf; left).
    apply list_elem_of_filter in Hx as [-> ?]. done.
  - intros Hin.
    assert (d ∈ filter (λ x, x = d) ds) as Hd by (by apply list_elem_of_filter).
    destruct (filter _ ds); [by apply elem_of_nil in Hd|simpl; lia].
Qed.

(** The counter maps exactly the digits that occur to their number of
    occurrences. *)
Lemma Counter_lookup ds d :
  Counter ds !! d =
  if decide (occurrences_of d ds = 0) then None else Some (occurrences_of d ds).
Proof.
  induction ds as [|x ds IH] using rev_ind; [done|].
  rewrite Counter_snoc, occurrences_of_snoc.
  pose proof (occurrences_of_nonneg d ds).
  destruct (decide (x = d)) as [->|Hne].
  - rewrite lookup_insert_eq, IH.
    repeat case_decide; simpl; try lia; f_equal; lia.
  - rewrite lookup_insert_ne by done. rewrite IH, Z.add_0_r. done.
Qed.

Lemma np_sum_Permutation l1 l2 : l1 ≡ₚ l2 → np_sum l1 = np_sum l2.
Proof. induction 1; simpl; lia. Qed.

Lemma np_sum_insert_fresh (m : gmap Z Z) k v :
  m !! k = None →
  np_sum ((map_to_list (<[k := v]> m)).*2) = v + np_sum ((map_to_list m).*2).
Proof.
  intros Hk. rewrite (np_sum_Permutation _ (((k, v) :: map_to_list m).*2));
    [by rewrite fmap_cons|by rewrite map_to_list_insert].
Qed.

Lemma np_sum_delete (m : gmap Z Z) k :
  np_sum ((map_to_list (delete k m)).*2) =
  np_sum ((map_to_list m).*2) - default 0 (m !! k).
Proof.
  destruct (m !! k) as [v|] eqn:Hk; simpl.
  - assert (np_sum ((map_to_list m).*2) =
            v + np_sum ((map_to_list (delete k m)).*2)) as ->; [|lia].
    rewrite (np_sum_Permutation ((map_to_list m).*2)
               (((k, v) :: map_to_list (delete k m)).*2));
      [by rewrite fmap_cons|by rewrite map_to_list_delete].
  - rewrite delete_id by done. lia.
Qed.

Lemma np_sum_insert (m : gmap Z Z) k v :
  np_sum ((map_to_list (<[k := v]> m)).*2) =
  np_sum ((map_to_list m).*2) - default 0 (m !! k) + v.
Proof.
  rewrite <-insert_delete_eq, np_sum_insert_fresh by apply lookup_delete_eq.
  rewrite np_sum_delete. lia.
Qed.

Lemma Counter_total ds :
  np_sum ((map_to_list (Counter ds)).*2) = Z.of_nat (length ds).
Proof.
  induction ds as [|x ds IH] using rev_ind.
  - unfold Counter. simpl. by rewrite map_to_list_empty.
  - rewrite Counter_snoc, np_sum_insert, IH, length_app. simpl. lia.
Qed.

Lemma counted_filter_length exclude_zero ds :
  Z.of_nat (length (filter (counted exclude_zero) ds)) =
  Z.of_nat (length ds) - (if exclude_zero then occurrences_of 0 ds else 0).
Proof.
  unfold occurrences_of.
  induction ds as [|d ds IH]; [by destruct exclude_zero|].
  rewrite !filter_cons. simpl length.
  destruct exclude_zero; unfold counted in *;
    repeat case_decide; simpl length; try lia; intuition congruence.
Qed.

(** What the tally holds: the occurrences of every counted digit. *)
Lemma tally_lookup ds exclude_zero d :
  tally ds exclude_zero !! d =
  if decide (counted exclude_zero d ∧ d ∈ ds)
  then Some (occurrences_of d ds) else None.
Proof.
  pose proof (occurrences_of_pos d ds) as Hpos.
  pose proof (occurrences_of_nonneg d ds) as Hnn.
  assert (∀ b, (b = false ∨ d ≠ 0) →
            Counter ds !! d =
            if decide (counted b d ∧ d ∈ ds)
            then Some (occurrences_of d ds) else None) as Hkept.
  { intros b Hb. rewrite Counter_lookup.
    destruct (decide (occurrences_of d ds = 0)) as [Hz|Hz].
    - rewrite decide_False; [done|]. intros [_ Hin]. apply Hpos in Hin. lia.
    - rewrite decide_True; [done|]. split; [|apply Hpos; lia].
      intros [-> ->]. by destruct Hb. }
  unfold tally. destruct exclude_zero; [|by apply Hkept; left].
  destruct (decide (d = 0)) as [->|Hd].
  - rewrite lookup_delete_eq, decide_False; [done|].
    intros [Hc _]. by apply Hc.
  - rewrite lookup_delete_ne by done. by apply Hkept; right.
Qed.

Lemma tally_total ds exclude_zero :
  np_sum ((map_to_list (tally ds exclude_zero)).*2) =
  Z.of_nat (length (filter (counted exclude_zero) ds)).
Proof.
  rewrite counted_filter_length. unfold tally. destruct exclude_zero.
  - rewrite np_sum_delete, Counter_total, Counter_lookup.
    case_decide as H0; simpl; [rewrite H0|]; lia.
  - rewrite Counter_total. lia.
Qed.

(** ** [digit_occurrences] *)

Global Instance key_le_trans : Transitive key_le.
Proof. intros p q r. unfold key_le. lia. Qed.
Global Instance key_le_total : Total key_le.
Proof. intros p q. unfold key_le. lia. Qed.

Lemma get_digits_returns_length number indices ds :
  get_digits number indices = Returns ds → length ds = length indices.
Proof.
  unfold get_digits. destruct (negb _); [done|].
  destruct (int_to_digits number) as [digits|e]; simpl; [|done].
  apply comprehension_returns_length.
Qed.

Lemma first_digits_Forall2 sequence digit_index ds :
  first_digits sequence digit_index = Returns ds →
  Forall2 (λ number d, get_digits number [digit_index] = Returns [d]) sequence ds.
Proof.
  unfold first_digits. revert ds.
  induction sequence as [|number sequence IH]; intros ds; simpl.
  - intros [= <-]. constructor.
  - destruct (get_digits number [digit_index]) as [l|e] eqn:Hget; simpl; [|done].
    pose proof (get_digits_returns_length _ _ _ Hget) as Hlen.
    destruct l as [|d [|??]]; try done. rewrite py_index_singleton. simpl.
    destruct (comprehension _ sequence) as [ds'|e]; simpl; [|done].
    intros [= <-]. constructor; [done|]. by apply IH.
Qed.

(** The shape of a successful call: the sorted items of the tally, which
    must be non-empty, split into their two columns. *)
Lemma digit_occurrences_returns sequence digit_index exclude_zero digits counts :
  digit_occurrences sequence digit_index exclude_zero = Returns (digits, counts) →
  ∃ ds sorted_pairs,
    first_digits sequence digit_index = Returns ds
    ∧ sorted_pairs = merge_sort key_le (map_to_list (tally ds exclude_zero))
    ∧ sorted_pairs ≠ []
    ∧ digits = sorted_pairs.*1 ∧ counts = sorted_pairs.*2.
Proof.
  unfold digit_occurrences.
  destruct (first_digits sequence digit_index) as [ds|e]; simpl; [|done].
  destruct (merge_sort key_le (map_to_list (tally ds exclude_zero)))
    as [|p sorted] eqn:Hsorted; simpl; [done|].
  intros [= <- <-]. exists ds, (p :: sorted). by rewrite Hsorted.
Qed.

Lemma digit_occurrences_tally_empty sequence digit_index exclude_zero ds :
  first_digits sequence digit_index = Returns ds →
  tally ds exclude_zero = ∅ →
  digit_occurrences sequence digit_index exclude_zero = Raises IndexError.
Proof.
  intros Hds Hempty. unfold digit_occurrences. rewrite Hds. simpl.
  by rewrite Hempty, map_to_list_empty.
Qed.

Lemma sorted_keys_strict (l : list (Z * Z)) :
  StronglySorted key_le l → NoDup (l.*1) → StronglySorted Z.lt (l.*1).
Proof.
  induction 1 as [|p l Hl IH Hall]; intros Hnodup; simpl; [constructor|].
  apply NoDup_cons in Hnodup as [Hnotin Hnodup]. constructor; [by apply IH|].
  apply Forall_fmap, Forall_forall. intros q Hq. simpl.
  pose proof (proj1 (Forall_forall _ _) Hall q Hq) as Hle. unfold key_le in Hle.
  assert (p.1 ≠ q.1); [|lia].
  intros Heq. apply Hnotin. rewrite Heq. apply list_elem_of_fmap. eauto.
Qed.

Lemma columns_lookup (l : list (Z * Z)) i d c :
  l.*1 !! i = Some d → l.*2 !! i = Some c → (d, c) ∈ l.
Proof.
  rewrite !list_lookup_fmap. destruct (l !! i) as [[d' c']|] eqn:Hi; simpl; [|done].
  intros [= <-] [= <-]. by apply list_elem_of_lookup_2 with i.
Qed.

(** C7 — when [digit_occurrences] returns [(digits, counts)], with
    [first_digits_list] the digit of each sequence element at the requested
    index: [digits] is strictly ascending without duplicates, [counts] has
    the same length, [counts[i]] is the number of occurrences of
    [digits[i]], and the counts sum to the number of elements whose digit
    is not excluded. *)
Theorem digit_occurrences_invariants
    (sequence : list pyval) (digit_index : Z) (exclude_zero : bool)
    (digits counts : list Z) :
  digit_occurrences sequence digit_index exclude_zero = Returns (digits, counts) →
  ∃ first_digits_list,
    Forall2 (λ number d, get_digits number [digit_index] = Returns [d])
            sequence first_digits_list
    ∧ StronglySorted Z.lt digits
    ∧ NoDup digits
    ∧ length counts = length digits
    ∧ (∀ i d c, digits !! i = Some d → counts !! i = Some c →
         counted exclude_zero d ∧ c = occurrences_of d first_digits_list)
    ∧ np_sum counts =
        Z.of_nat (length (filter (counted exclude_zero) first_digits_list)).
Proof.
  intros Hret.
  apply digit_occurrences_returns in Hret
    as (ds & sorted & Hds & Hsorted & _ & -> & ->).
  assert (sorted ≡ₚ map_to_list (tally ds exclude_zero)) as Hperm
    by (rewrite Hsorted; apply merge_sort_Permutation).
  assert (NoDup (sorted.*1)) as Hnodup
    by (rewrite Hperm; apply NoDup_fst_map_to_list).
  exists ds. split_and!.
  - by apply first_digits_Forall2.
  - apply sorted_keys_strict; [|done].
    rewrite Hsorted. apply StronglySorted_merge_sort; apply _.
  - done.
  - by rewrite !length_fmap.
  - intros i d c Hd Hc.
    pose proof (columns_lookup sorted i d c Hd Hc) as Hin.
    rewrite Hperm in Hin. apply elem_of_map_to_list in Hin.
    rewrite tally_lookup in Hin. case_decide as Hcase; [|done].
    injection Hin as <-. by destruct Hcase.
  - rewrite (np_sum_Permutation _ ((map_to_list (tally ds exclude_zero)).*2))
      by (by rewrite Hperm).
    apply tally_total.
Qed.

Lemma digit_occurrences_invariants_witness :
  ∃ first_digits_list,
    Forall2 (λ number d, get_digits number [0] = Returns [d])
            (NpInteger <$> [0; 100; 250; 17; 205; 9]) first_digits_list
    ∧ StronglySorted Z.lt [1; 2; 9]
    ∧ NoDup [1; 2; 9]
    ∧ length [2; 2; 1] = length [1; 2; 9]
    ∧ (∀ i d c, [1; 2; 9] !! i = Some d → [2; 2; 1] !! i = Some c →
         counted true d ∧ c = occurrences_of d first_digits_list)
    ∧ np_sum [2; 2; 1] =
        Z.of_nat (length (filter (counted true) first_digits_list)).
Proof.
  apply (digit_occurrences_invariants
           (NpInteger <$> [0; 100; 250; 17; 205; 9]) 0 true [1; 2; 9] [2; 2; 1]).
  vm_compute. reflexivity.
Defined.

(** C9 — on the empty sequence, and with [exclude_zero] on a sequence whose
    every element has digit 0 at the requested index, no digit is tallied
    and [digit_occurrences] raises [IndexError] when it takes the columns
    of the result array. *)
Theorem digit_occurrences_nothing_tallied
    (sequence : list pyval) (digit_index : Z) (exclude_zero : bool) :
  Forall (λ number, exclude_zero = true
                    ∧ get_digits number [digit_index] = Returns [0]) sequence →
  digit_occurrences sequence digit_index exclude_zero = Raises IndexError.
Proof.
  intros Hall.
  apply (digit_occurrences_tally_empty _ _ _ ((λ _, 0) <$> sequence)).
  - unfold first_digits. apply comprehension_all_return.
    eapply Forall_impl; [done|]. by intros number [_ ->].
  - apply map_eq. intros d. rewrite tally_lookup, lookup_empty.
    case_decide as Hcase; [|done]. destruct Hcase as [Hcounted Hin].
    apply list_elem_of_fmap in Hin as (number & -> & Hnumber).
    destruct (proj1 (Forall_forall _ _) Hall number Hnumber) as [-> _].
    by destruct Hcounted.
Qed.

Lemma digit_occurrences_nothing_tallied_witness :
  digit_occurrences [] 0 false = Raises IndexError
  ∧ digit_occurrences [PyInt 10; NpInteger 100; PyInt 907] 1 true
    = Raises IndexError.
Proof.
  split.
  - apply digit_occurrences_nothing_tallied. constructor.
  - apply digit_occurrences_nothing_tallied.
    repeat constructor; reflexivity.
Defined.

(** ** [fib_number] *)

Lemma F_pair_spec n : F_pair n = (F n, F (S n)).
Proof.
  induction n as [|n IH]; [done|].
  change (F_pair (S n)) with (let '(a, b) := F_pair n in (b, a + b)).
  rewrite IH. change (F (S (S n))) with (F (S n) + F n). f_equal. lia.
Qed.

Lemma F_fast n : F n = (F_pair n).1.
Proof. by rewrite F_pair_spec. Qed.

Lemma F_step n : 2 ≤ n → F (Z.to_nat n) = F (Z.to_nat (n - 1)) + F (Z.to_nat (n - 2)).
Proof.
  intros Hn.
  replace (Z.to_nat n) with (S (S (Z.to_nat (n - 2)))) by lia.
  replace (Z.to_nat (n - 1)) with (S (Z.to_nat (n - 2))) by lia.
  done.
Qed.

Lemma F_small n : 0 ≤ n < 2 → F (Z.to_nat n) = n.
Proof.
  intros Hn. assert (n = 0 ∨ n = 1) as [-> | ->] by lia; done.
Qed.

Lemma cache_valid_empty : cache_valid ∅.
Proof. intros k v. by rewrite lookup_empty. Qed.

Lemma cache_valid_insert cache n :
  cache_valid cache → 0 ≤ n → cache_valid (<[n := F (Z.to_nat n)]> cache).
Proof.
  intros Hvalid Hn k v. destruct (decide (n = k)) as [->|Hne].
  - rewrite lookup_insert_eq. by intros [= <-].
  - rewrite lookup_insert_ne by done. apply Hvalid.
Qed.

Lemma fib_number_hit fuel n cache v :
  cache !! n = Some v → fib_number fuel n cache = Some (Returns v, cache).
Proof.
  intros Hhit. destruct fuel as [|fuel]; simpl; [by rewrite Hhit|].
  unfold lru_cache. by rewrite Hhit.
Qed.

(** With a recursion budget above [n], the call returns F(n), leaves a valid
    table that extends the old one and holds the entry for [n]. *)
Lemma fib_number_returns fuel : ∀ n cache,
  cache_valid cache → 0 ≤ n → (Z.to_nat n < fuel)%nat →
  ∃ cache', fib_number fuel n cache = Some (Returns (F (Z.to_nat n)), cache')
            ∧ cache_valid cache' ∧ cache ⊆ cache'
            ∧ cache' !! n = Some (F (Z.to_nat n)).
Proof.
  induction fuel as [|fuel IH]; intros n cache Hvalid Hn Hfuel; [lia|].
  destruct (cache !! n) as [v|] eqn:Hlookup.
  { destruct (Hvalid n v Hlookup) as [_ ->].
    exists cache. by rewrite (fib_number_hit _ _ _ _ Hlookup). }
  pose proof (cache_valid_insert) as Hinsert.
  simpl. unfold lru_cache. rewrite Hlookup.
  assert ((n <? 0) = false) as -> by lia.
  destruct (n <? 2) eqn:Hsmall.
  - unfold mret, call_ret.
    exists (<[n := n]> cache). rewrite (F_small n) by lia. split_and!.
    + done.
    + rewrite <-(F_small n) at 2 by lia. by apply Hinsert.
    + by apply insert_subseteq.
    + apply lookup_insert_eq.
  - destruct (IH (n - 1) cache) as (c1 & Hrun1 & Hvalid1 & Hsub1 & _);
      [done|lia|lia|].
    destruct (IH (n - 2) c1) as (c2 & Hrun2 & Hvalid2 & Hsub2 & _);
      [done|lia|lia|].
    unfold mbind, call_bind. rewrite Hrun1, Hrun2.
    unfold mret, call_ret. rewrite <-F_step by lia.
    exists (<[n := F (Z.to_nat n)]> c2). split_and!.
    + done.
    + by apply Hinsert.
    + apply insert_subseteq_r; [done|]. by etrans.
    + apply lookup_insert_eq.
Qed.

Lemma fib_number_negative fuel n cache :
  cache_valid cache → n < 0 →
  fib_number (S fuel) n cache = Some (Raises ValueError, cache).
Proof.
  intros Hvalid Hn. simpl. unfold lru_cache.
  destruct (cache !! n) as [v|] eqn:Hlookup.
  - destruct (Hvalid n v Hlookup). lia.
  - by assert ((n <? 0) = true) as -> by lia.
Qed.

(** C6 — from any table the memoised function can have built, and with a
    recursion budget above [n]: for [0 <= n] the call returns the [n]-th
    number of the recurrence F(0)=0, F(1)=1, F(n)=F(n-1)+F(n-2) and leaves
    an extended valid table; for [n < 0] it raises [ValueError] and leaves
    the table as it was. *)
Theorem fib_number_spec (fuel : nat) (n : Z) (cache : gmap Z Z) :
  cache_valid cache → (Z.to_nat n < fuel)%nat →
  (0 ≤ n →
     ∃ cache', fib_number fuel n cache = Some (Returns (F (Z.to_nat n)), cache')
               ∧ cache_valid cache' ∧ cache ⊆ cache')
  ∧ (n < 0 → fib_number fuel n cache = Some (Raises ValueError, cache)).
Proof.
  intros Hvalid Hfuel. split.
  - intros Hn.
    destruct (fib_number_returns fuel n cache) as (c' & ? & ? & ? & _); eauto.
  - intros Hn. destruct fuel as [|fuel]; [lia|]. by apply fib_number_negative.
Qed.

Lemma fib_number_spec_witness :
  (∃ cache', fib_number 11 10 ∅ = Some (Returns (F 10), cache')
             ∧ cache_valid cache' ∧ ∅ ⊆ cache')
  ∧ fib_number 1 (-3) ∅ = Some (Raises ValueError, ∅).
Proof.
  split.
  - apply (fib_number_spec 11 10 ∅); [apply cache_valid_empty|simpl; lia|lia].
  - apply (fib_number_spec 1 (-3) ∅); [apply cache_valid_empty|simpl; lia|lia].
Defined.

(** ** [fib_sequence] *)

(** From here on F is only used through its equations; evaluation goes
    through [F_fast]. *)
Opaque F.

Lemma float_of_int_fits z :
  int_fits_f64 z = true → float_of_int z = Returns (f64_of_Z z).
Proof.
  unfold int_fits_f64, float_of_int. by destruct (f64_of_Z z).
Qed.

Lemma int_exact_in_f64_spec z :
  int_exact_in_f64 z = true ↔ f64_to_Z (f64_of_Z z) = Some z.
Proof.
  unfold int_exact_in_f64. destruct (f64_to_Z (f64_of_Z z)) as [z'|].
  - rewrite Z.eqb_eq. split; [by intros ->|by intros [= ->]].
  - done.
Qed.

(** Writing [g i] into slot [i] for [i = k, k+1, ...] turns the zeros behind
    a filled prefix into the values of [g]. *)
Lemma fill_slots {A} (g : nat → A) (z : A) m : ∀ k prefix,
  length prefix = k →
  foldl (λ s i, <[i := g i]> s) (prefix ++ replicate m z) (seq k m)
  = prefix ++ (g <$> seq k m).
Proof.
  induction m as [|m IH]; intros k prefix Hlen; [done|].
  simpl. rewrite <-Hlen at 1.
  replace (length prefix) with (length prefix + 0)%nat by lia.
  rewrite insert_app_r. simpl.
  rewrite (cons_middle (g k) prefix), app_assoc.
  rewrite (IH (S k) (prefix ++ [g k])) by (rewrite length_app; simpl; lia).
  by rewrite <-app_assoc.
Qed.

Lemma foldl_pointwise {A B} (f g : A → B → A) l : ∀ a,
  (∀ a x, f a x = g a x) → foldl f a l = foldl g a l.
Proof. induction l as [|x l IH]; intros a Hfg; simpl; [done|]. rewrite Hfg. auto. Qed.

Lemma fill_sequence_returns fuel indices : ∀ sequence cache,
  cache_valid cache →
  Forall (λ i, 0 ≤ i ∧ (Z.to_nat i < fuel)%nat
               ∧ int_fits_f64 (F (Z.to_nat i)) = true) indices →
  ∃ cache',
    fill_sequence fuel indices sequence cache =
      Some (Returns (foldl (λ s i, <[Z.to_nat i := f64_of_Z (F (Z.to_nat i))]> s)
                           sequence indices), cache')
    ∧ cache_valid cache' ∧ cache ⊆ cache'.
Proof.
  induction indices as [|i indices IH]; intros sequence cache Hvalid Hall.
  - exists cache. by split_and!.
  - apply Forall_cons in Hall as [(Hi & Hfuel & Hfits) Hall].
    destruct (fib_number_returns fuel i cache)
      as (c1 & Hrun & Hvalid1 & Hsub1 & _); [done..|].
    destruct (IH (<[Z.to_nat i := f64_of_Z (F (Z.to_nat i))]> sequence) c1)
      as (c2 & Hrest & Hvalid2 & Hsub2); [done..|].
    exists c2. split_and!; [|done|by etrans].
    simpl. unfold mbind, call_bind at 1. rewrite Hrun.
    unfold call_bind at 1, lift. by rewrite float_of_int_fits.
Qed.

(** As long as every number converts to a float, the call returns the
    conversions of F(0), ..., F(n_elements - 1) in order, whatever the table
    held before. *)
Lemma fib_sequence_returns fuel n_elements cache :
  cache_valid cache → 0 ≤ n_elements → (Z.to_nat n_elements ≤ fuel)%nat →
  Forall (λ i, int_fits_f64 (F i) = true) (seq 0 (Z.to_nat n_elements)) →
  ∃ cache',
    fib_sequence fuel n_elements cache =
      Some (Returns ((λ i, f64_of_Z (F i)) <$> seq 0 (Z.to_nat n_elements)), cache')
    ∧ cache_valid cache' ∧ cache ⊆ cache'.
Proof.
  intros Hvalid Hn Hfuel Hfits. unfold fib_sequence.
  assert ((n_elements <? 0) = false) as -> by lia.
  destruct (fill_sequence_returns fuel (seqZ 0 n_elements)
              (replicate (Z.to_nat n_elements) f64_zero) cache)
    as (cache' & -> & Hvalid' & Hsub); [done| |].
  { apply Forall_seqZ. intros i Hi. split_and!; [lia..|].
    apply (proj1 (Forall_forall _ _) Hfits). apply elem_of_seq. lia. }
  exists cache'. split_and!; [|done..]. do 3 f_equal.
  unfold seqZ. rewrite foldl_fmap.
  etrans; [|exact (fill_slots (λ i, f64_of_Z (F i)) f64_zero
                     (Z.to_nat n_elements) 0 [] eq_refl)].
  apply foldl_pointwise. intros s i. by rewrite Z.add_0_r, Nat2Z.id.
Qed.

(** The first 79 Fibonacci numbers are below 2^53 and survive the
    conversion; the first 80 at least convert. *)
Lemma F_below_80_fit : Forall (λ i, int_fits_f64 (F i) = true) (seq 0 80).
Proof.
  apply Forall_forall. intros i Hi. rewrite F_fast. revert i Hi.
  apply Forall_forall. apply (bool_decide_unpack _). by vm_compute.
Qed.

Lemma F_below_79_exact : Forall (λ i, int_exact_in_f64 (F i) = true) (seq 0 79).
Proof.
  apply Forall_forall. intros i Hi. rewrite F_fast. revert i Hi.
  apply Forall_forall. apply (bool_decide_unpack _). by vm_compute.
Qed.

Lemma F_79 : F 79 = 14472334024676221.
Proof. rewrite F_fast. by vm_compute. Qed.

(** Up to 79 elements the array holds the Fibonacci numbers themselves:
    [fib_sequence] returns [n_elements] floats, the [i]-th with the exact
    value F(i), from any table; a second call gives the same array. *)
Lemma fib_sequence_exact_upto_79 fuel n_elements cache :
  cache_valid cache → 0 ≤ n_elements ≤ 79 → (Z.to_nat n_elements ≤ fuel)%nat →
  ∃ sequence cache',
    fib_sequence fuel n_elements cache = Some (Returns sequence, cache')
    ∧ length sequence = Z.to_nat n_elements
    ∧ (∀ i x, sequence !! i = Some x → f64_to_Z x = Some (F i))
    ∧ ∃ cache'', fib_sequence fuel n_elements cache' = Some (Returns sequence, cache'').
Proof.
  intros Hvalid Hn Hfuel.
  assert (Forall (λ i, int_fits_f64 (F i) = true) (seq 0 (Z.to_nat n_elements)))
    as Hfits.
  { apply Forall_forall. intros i Hi. apply elem_of_seq in Hi.
    apply (proj1 (Forall_forall _ _) F_below_80_fit). apply elem_of_seq. lia. }
  destruct (fib_sequence_returns fuel n_elements cache)
    as (cache' & Hrun & Hvalid' & _); [done|lia|done..|].
  destruct (fib_sequence_returns fuel n_elements cache')
    as (cache'' & Hrun' & _); [done|lia|done..|].
  eexists _, cache'. split_and!; [done| | |by eexists].
  - by rewrite length_fmap, length_seq.
  - intros i x. rewrite list_lookup_fmap.
    destruct (seq 0 (Z.to_nat n_elements) !! i) as [j|] eqn:Hj; simpl; [|done].
    apply lookup_seq in Hj as [-> Hlt]. intros [= <-]. simpl.
    apply int_exact_in_f64_spec.
    apply (proj1 (Forall_forall _ _) F_below_79_exact). apply elem_of_seq. lia.
Qed.

(** C1 — at 80 elements [fib_sequence] returns an array whose last entry is
    the double 14472334024676220: storing F(79) = 14472334024676221 into the
    float64 array made by [np.zeros] rounds it, so the entry is not the
    79-th Fibonacci number. *)
Theorem fib_sequence_80_last_entry_rounded :
  ∃ sequence cache' x,
    fib_sequence 80 80 ∅ = Some (Returns sequence, cache')
    ∧ length sequence = 80%nat
    ∧ sequence !! 79%nat = Some x
    ∧ f64_to_Z x = Some 14472334024676220
    ∧ F 79 = 14472334024676221.
Proof.
  destruct (fib_sequence_returns 80 80 ∅)
    as (cache' & Hrun & _); [apply cache_valid_empty|lia|simpl; lia| |].
  { apply F_below_80_fit. }
  change (Z.to_nat 80) with 80%nat in Hrun.
  eexists _, cache', (f64_of_Z (F 79)). split_and!; [exact Hrun| | | |].
  - by rewrite length_fmap, length_seq.
  - rewrite list_lookup_fmap, (lookup_seq_lt 0 80 79) by lia. reflexivity.
  - rewrite F_79. by vm_compute.
  - apply F_79.
Qed.

(** ** 64-bit integers *)

Lemma wrap64_in_range z : - 2 ^ 63 ≤ z < 2 ^ 63 → wrap64 z = z.
Proof.
  intros Hz. unfold wrap64. rewrite Z.mod_small; lia.
Qed.

Lemma np_power_10_exact k : 0 ≤ k ≤ 18 → np_power 10 k = 10 ^ k.
Proof.
  intros Hk. unfold np_power. apply wrap64_in_range.
  assert (0 < 10 ^ k) by (apply Z.pow_pos_nonneg; lia).
  assert (10 ^ k ≤ 10 ^ 18) by (apply Z.pow_le_mono_r; lia).
  lia.
Qed.

Lemma np_power_10_19 : np_power 10 19 = -8446744073709551616.
Proof. reflexivity. Qed.

(** An array [np.arange] returns has passed the size check: its 8-byte
    items fit the largest array size. *)
Lemma np_arange_returns_size start stop items :
  np_arange start stop = Returns items →
  8 * Z.of_nat (length items) ≤ 2 ^ 63 - 1.
Proof.
  unfold np_arange.
  destruct (f64_to_Z (f64_of_Z (wrap64 (stop - start)))) as [len|]; [|done].
  destruct (len <=? 0) eqn:Hempty; [intros [= <-]; simpl; lia|].
  destruct (2 ^ 63 - 1 <? 8 * len) eqn:Hbig; [done|].
  intros [= <-]. rewrite length_fmap, length_seqZ. lia.
Qed.

Lemma wrap64_range z : - 2 ^ 63 ≤ wrap64 z < 2 ^ 63.
Proof.
  unfold wrap64. pose proof (Z.mod_pos_bound (z + 2 ^ 63) (2 ^ 64)). lia.
Qed.

(** ** Theoretical distributions *)

Section Distributions.
Variables libm_log libm_log10 : f64 → f64.

Lemma bendford_dist__groups order :
  1 ≤ order →
  bendford_dist_ libm_log10 order =
    (digit_combinations ← np_arange (np_power 10 (order - 1)) (np_power 10 order);
     Returns (benford_probability libm_log10 <$> digit_combinations)
     : outcome (list f64)).
Proof.
  intros Horder. unfold bendford_dist_.
  assert ((order <? 1) = false) as -> by lia.
  destruct (np_arange _ _) as [digit_combinations|]; simpl; [|done].
  unfold float_radd, int_rdiv. by rewrite <-!list_fmap_compose.
Qed.

(** C3 — beyond order 18 the bound 10^order no longer fits a 64-bit
    integer and [np.power] wraps around silently. At order 19 the upper
    bound is negative, the int64 difference of the bounds wraps to
    9 * 10^18 items and [np.arange] raises [ValueError]; at order 20 the
    difference wraps to a negative length and [bendford_dist_] returns an
    empty array. Neither call returns the probability log10(1 + 1/g) of
    the groups g of [10^(order-1), 10^order). *)
Theorem bendford_dist__wrapped_orders :
  np_power 10 19 = -8446744073709551616
  ∧ wrap64 (np_power 10 19 - np_power 10 18) = 9 * 10 ^ 18
  ∧ bendford_dist_ libm_log10 19 = Raises ValueError
  ∧ np_power 10 20 = 7766279631452241920
  ∧ wrap64 (np_power 10 20 - np_power 10 19) = -2233720368547758080
  ∧ bendford_dist_ libm_log10 20 = Returns [].
Proof.
  split_and!; by vm_compute.
Qed.

(** C5 — at order 20 [bendford_dist_] returns the empty array (the bounds
    have wrapped around in int64), whose sum is 0.0: not within 1e-9 of 1. *)
Theorem bendford_dist__order_20_sum :
  ∃ probabilities,
    bendford_dist_ libm_log10 20 = Returns probabilities
    ∧ float_sum probabilities = f64_zero
    ∧ f64_within (float_sum probabilities) (f64_of_Z 1)
        (f64_div (f64_of_Z 1) (f64_of_Z (10 ^ 9))) = false.
Proof.
  exists []. split; [|split; reflexivity].
  unfold bendford_dist_. change (20 <? 1) with false. cbv iota.
  assert (np_arange (np_power 10 (20 - 1)) (np_power 10 20) = Returns [])
    as -> by (by vm_compute).
  reflexivity.
Qed.

(** Order 1 and the single-digit formula on the digits 1 to 9 evaluate the
    logarithm at the same doubles 1 + 1/d; the first through [log10], the
    second through [log] and a division by [log 10]. *)
Lemma bendford_dist__order_1 :
  bendford_dist_ libm_log10 1 =
    Returns ((λ d, np_log10 libm_log10
                     (f64_add (f64_of_Z 1) (f64_div (f64_of_Z 1) (f64_of_Z d))))
               <$> [1; 2; 3; 4; 5; 6; 7; 8; 9]).
Proof. rewrite bendford_dist__groups by lia. reflexivity. Qed.

Lemma bendford_dist_digits_1_to_9 :
  bendford_dist libm_log [1; 2; 3; 4; 5; 6; 7; 8; 9] =
    (λ d, f64_div
            (np_log libm_log
               (f64_add (f64_of_Z 1) (f64_div (f64_of_Z 1) (f64_of_Z d))))
            (np_log libm_log (f64_of_Z 10)))
      <$> [1; 2; 3; 4; 5; 6; 7; 8; 9].
Proof. reflexivity. Qed.

Lemma one_over_zero : f64_div (f64_of_Z 1) (f64_of_Z 0) = f64_inf.
Proof. reflexivity. Qed.
Lemma one_plus_inf : f64_add (f64_of_Z 1) f64_inf = f64_inf.
Proof. reflexivity. Qed.
Lemma np_log_inf : np_log libm_log f64_inf = f64_inf.
Proof. reflexivity. Qed.
Lemma np_log_ten : np_log libm_log (f64_of_Z 10) = libm_log (f64_of_Z 10).
Proof. reflexivity. Qed.
Lemma inf_over_positive x :
  f64_positive_finite x = true → f64_div f64_inf x = f64_inf.
Proof. by destruct x as [| | |[] ??]. Qed.

(** C10 — [bendford_dist] has no error result at all: it returns one
    value per input digit, and where the digit is 0 the division 1/0
    yields +infinity, which the logarithm and the division by log(10),
    a positive finite double, carry through to the result. *)
Theorem bendford_dist_zero_digit (digits : list Z) (i : nat) :
  f64_positive_finite (libm_log (f64_of_Z 10)) = true →
  digits !! i = Some 0 →
  length (bendford_dist libm_log digits) = length digits
  ∧ bendford_dist libm_log digits !! i = Some f64_inf.
Proof.
  intros Hlog10 Hzero. unfold bendford_dist, log_n, float_radd, int_rdiv.
  split; [by rewrite !length_fmap|].
  rewrite !list_lookup_fmap, Hzero.
  cbn -[f64_of_Z f64_div f64_add np_log]. f_equal.
  rewrite one_over_zero, one_plus_inf, np_log_inf, np_log_ten.
  by apply inf_over_positive.
Qed.
End Distributions.

(** The double nearest to ln 10, 2.302585092994046. *)
Lemma bendford_dist_zero_digit_witness :
  length (bendford_dist (λ _, S754_finite false 5184960683398422 (-51)) [0; 1; 5])
    = 3%nat
  ∧ bendford_dist (λ _, S754_finite false 5184960683398422 (-51)) [0; 1; 5]
      !! 0%nat = Some f64_inf.
Proof.
  apply (bendford_dist_zero_digit
           (λ _, S754_finite false 5184960683398422 (-51)) [0; 1; 5] 0);
    reflexivity.
Defined.

(** * Further properties of the digit functions *)

Lemma digits_value_snoc ds d : digits_value (ds ++ [d]) = 10 * digits_value ds + d.
Proof. unfold digits_value. by rewrite foldl_snoc. Qed.

Lemma digits_value_app ds1 ds2 :
  digits_value (ds1 ++ ds2) =
  digits_value ds1 * 10 ^ Z.of_nat (length ds2) + digits_value ds2.
Proof.
  induction ds2 as [|d ds2 IH] using rev_ind.
  - rewrite app_nil_r. simpl. unfold digits_value at 3. simpl. lia.
  - rewrite app_assoc, !digits_value_snoc, IH, length_app. simpl.
    replace (Z.of_nat (length ds2 + 1)) with (Z.succ (Z.of_nat (length ds2))) by lia.
    rewrite Z.pow_succ_r by lia. lia.
Qed.

Lemma digits_value_cons d ds :
  digits_value (d :: ds) = d * 10 ^ Z.of_nat (length ds) + digits_value ds.
Proof.
  change (d :: ds) with ([d] ++ ds). rewrite digits_value_app.
  unfold digits_value at 1. simpl. lia.
Qed.

Lemma digits_value_bounds ds :
  Forall (λ d, 0 ≤ d ≤ 9) ds → 0 ≤ digits_value ds < 10 ^ Z.of_nat (length ds).
Proof.
  induction ds as [|d ds IH] using rev_ind; intros Hall.
  - unfold digits_value. simpl. lia.
  - apply Forall_app in Hall as [Hds Hd]. apply Forall_cons in Hd as [Hd _].
    specialize (IH Hds). rewrite digits_value_snoc, length_app. simpl.
    replace (Z.of_nat (length ds + 1)) with (Z.succ (Z.of_nat (length ds))) by lia.
    rewrite Z.pow_succ_r by lia. lia.
Qed.

(** In a list of decimal digits the entry at position [p] is the digit of
    the denoted number at weight 10^(length - 1 - p). *)
Lemma digits_value_lookup ds p d :
  Forall (λ d, 0 ≤ d ≤ 9) ds → ds !! p = Some d →
  d = (digits_value ds / 10 ^ (Z.of_nat (length ds) - 1 - Z.of_nat p)) mod 10.
Proof.
  intros Hall Hp.
  pose proof (lookup_lt_Some _ _ _ Hp) as Hlt.
  pose proof (take_drop_middle ds p d Hp) as Hsplit.
  assert (0 ≤ d ≤ 9) as Hd
    by (apply (proj1 (Forall_forall _ _) Hall), list_elem_of_lookup; eauto).
  pose proof (digits_value_bounds (drop (S p) ds)) as Hpost.
  rewrite length_drop in Hpost.
  replace (Z.of_nat (length ds) - 1 - Z.of_nat p)
    with (Z.of_nat (length ds - S p)) by lia.
  rewrite <-Hsplit at 1.
  rewrite (cons_middle d), app_assoc, digits_value_app, digits_value_snoc.
  rewrite length_drop.
  specialize (Hpost (Forall_drop _ _ _ Hall)).
  assert (0 < 10 ^ Z.of_nat (length ds - S p)) by (apply Z.pow_pos_nonneg; lia).
  rewrite Z.div_add_l by lia. rewrite (Z.div_small (digits_value _)) by lia.
  rewrite Z.add_0_r, Z.add_comm, Z.mul_comm, Z.mod_add by lia.
  by rewrite Z.mod_small by lia.
Qed.

Lemma digit_of_pretty_N_char y :
  (y < 10)%N → digit_of_char (pretty_N_char y) = Z.of_N y.
Proof.
  intros Hy.
  assert (y ∈ [0; 1; 2; 3; 4; 5; 6; 7; 8; 9]%N) as Hcases.
  { apply list_elem_of_In. simpl. lia. }
  repeat (apply elem_of_cons in Hcases as [->|Hcases]; [reflexivity|]).
  by apply elem_of_nil in Hcases.
Qed.

(** The numeral printed for [x] in front of [s] denotes [x] shifted past
    the digits of [s]. *)
Lemma pretty_N_go_value x s :
  digits_value (digit_of_char <$> list_ascii_of_string (pretty_N_go x s)) =
  Z.of_N x * 10 ^ Z.of_nat (String.length s)
  + digits_value (digit_of_char <$> list_ascii_of_string s).
Proof.
  revert s. induction (N.lt_wf_0 x) as [x _ IH]; intros s.
  destruct (decide (x = 0)%N) as [->|Hx]; [rewrite pretty_N_go_0; lia|].
  rewrite pretty_N_go_step by lia. rewrite IH by (apply N.div_lt; lia).
  simpl list_ascii_of_string. rewrite fmap_cons, digits_value_cons.
  rewrite length_fmap, length_list_ascii_of_string.
  rewrite digit_of_pretty_N_char by (apply N.mod_lt; lia).
  simpl String.length.
  replace (Z.of_nat (S (String.length s)))
    with (Z.succ (Z.of_nat (String.length s))) by lia.
  rewrite Z.pow_succ_r by lia.
  pose proof (N.div_mod x 10 ltac:(lia)) as Hdm.
  apply (f_equal Z.of_N) in Hdm.
  rewrite N2Z.inj_add, N2Z.inj_mul in Hdm. simpl Z.of_N in Hdm at 2. lia.
Qed.

Lemma int_to_digits_nonneg_eq v n :
  int_value v = Some n → 0 ≤ n → n < 10 ^ 4300 →
  int_to_digits v =
    Returns (digit_of_char <$> list_ascii_of_string (pretty n)).
Proof.
  intros Hv Hn Hlimit.
  unfold int_to_digits.
  rewrite (py_str_int v n Hv), (str_of_int_printable n Hn Hlimit).
  apply (comprehension_all_return py_int_of_char).
  eapply Forall_impl; [by apply pretty_nonneg_digits|].
  apply py_int_of_char_digit.
Qed.

Lemma pretty_nonneg_value n :
  0 ≤ n →
  digits_value (digit_of_char <$> list_ascii_of_string (pretty n)) = n.
Proof.
  intros Hn. destruct n as [|p|p]; [done| |lia].
  change (pretty (Z.pos p)) with (pretty_N_go (N.pos p) "").
  rewrite pretty_N_go_value. simpl. unfold digits_value. simpl. lia.
Qed.

Lemma int_to_digits_value v n :
  int_value v = Some n → 0 ≤ n → n < 10 ^ 4300 →
  ∃ ds, int_to_digits v = Returns ds
        ∧ Forall (λ d, 0 ≤ d ≤ 9) ds ∧ digits_value ds = n.
Proof.
  intros Hv Hn Hlimit.
  destruct (int_to_digits_nonneg v n Hv Hn Hlimit) as (ds & Hds & _ & Hrange).
  exists ds. split_and!; [done..|].
  rewrite (int_to_digits_nonneg_eq v n Hv Hn Hlimit) in Hds. injection Hds as <-.
  by apply pretty_nonneg_value.
Qed.

(** The digits [int_to_digits] returned for a non-negative integer are
    decimal digits and denote it. *)
Lemma int_to_digits_returned_value v n ds :
  int_value v = Some n → 0 ≤ n → int_to_digits v = Returns ds →
  Forall (λ d, 0 ≤ d ≤ 9) ds ∧ digits_value ds = n.
Proof.
  intros Hv Hn Hds.
  pose proof (int_to_digits_returns_bound v n ds Hv Hn Hds) as Hlimit.
  destruct (int_to_digits_value v n Hv Hn Hlimit) as (ds' & Hds' & Hrange & Hvalue).
  by assert (ds' = ds) as -> by congruence.
Qed.

(** X1 — [int_to_digits] on a non-negative integer below 10^4300 (the
    integers [str] converts) returns its decimal digits, most significant
    first: at least one digit, each between 0 and 9, no leading zero unless
    the number is 0, and reading the digits back in base 10 gives the
    number. From 10^4300 on, [str] refuses the conversion and
    [int_to_digits] raises [ValueError]. *)
Theorem int_to_digits_round_trip (v : pyval) (n : Z) :
  int_value v = Some n → 0 ≤ n →
  (n < 10 ^ 4300 →
   ∃ digits,
     int_to_digits v = Returns digits
     ∧ Forall (λ d, 0 ≤ d ≤ 9) digits
     ∧ digits_value digits = n
     ∧ (∃ d, digits !! 0%nat = Some d ∧ (n ≠ 0 → d ≠ 0)))
  ∧ (10 ^ 4300 ≤ n → int_to_digits v = Raises ValueError).
Proof.
  intros Hv Hn. split; [intros Hlimit|]; cycle 1.
  { intros Hlong. unfold int_to_digits.
    by rewrite (py_str_int v n Hv), (str_of_int_too_long n Hlong). }
  destruct (int_to_digits_nonneg v n Hv Hn Hlimit) as (ds & Hds & Hlen & Hrange).
  pose proof (int_to_digits_nonneg_eq v n Hv Hn Hlimit) as Heq.
  assert (ds = digit_of_char <$> list_ascii_of_string (pretty n)) as Hds'
    by congruence.
  assert (digits_value ds = n) as Hvalue
    by (rewrite Hds'; by apply pretty_nonneg_value).
  exists ds. split_and!; [done..|].
  pose proof (int_to_digits_length v n (Z.of_nat (length ds)) ds Hv Hn Hds)
    as Hfull.
  pose proof (int_to_digits_length v n (Z.of_nat (length ds) - 1) ds Hv Hn Hds)
    as Hless.
  destruct ds as [|d ds].
  { pose proof (int_to_digits_length v n 1 [] Hv Hn Hds) as Hone.
    unfold digits_value in Hvalue. simpl in Hvalue, Hone. subst n.
    assert (at_most_digits 0 1) as H01 by (unfold at_most_digits; lia).
    apply Hone in H01. lia. }
  exists d. split; [done|]. intros Hn0 ->.
  apply Forall_cons in Hrange as [_ Hrange].
  pose proof (digits_value_bounds ds Hrange) as Hb.
  rewrite digits_value_cons in Hvalue. simpl in Hvalue.
  destruct ds as [|d' ds].
  - unfold digits_value in Hvalue. simpl in Hvalue. lia.
  - assert (at_most_digits n (Z.of_nat (length (0 :: d' :: ds)) - 1)) as Hshort.
    { unfold at_most_digits. simpl length in *. split; [lia|]. split; [lia|].
      replace (Z.of_nat (S (S (length ds))) - 1) with (Z.of_nat (S (length ds)))
        by lia. lia. }
    apply Hless in Hshort. simpl in Hshort. lia.
Qed.

Lemma int_to_digits_round_trip_witness :
  ∃ digits,
    int_to_digits (PyInt 8978) = Returns digits
    ∧ Forall (λ d, 0 ≤ d ≤ 9) digits
    ∧ digits_value digits = 8978
    ∧ (∃ d, digits !! 0%nat = Some d ∧ (8978 ≠ 0 → d ≠ 0)).
Proof.
  destruct (int_to_digits_round_trip (PyInt 8978) 8978) as [Hshort _];
    [reflexivity|lia|].
  apply Hshort. apply Z.ltb_lt. vm_compute. reflexivity.
Defined.

Lemma int_to_digits_negative v n :
  int_value v = Some n → n < 0 → int_to_digits v = Raises ValueError.
Proof.
  intros Hv Hn.
  unfold int_to_digits. rewrite (py_str_int v n Hv).
  destruct (str_of_int n) as [text|e] eqn:Hstr; cycle 1.
  { unfold str_of_int in Hstr. destruct (_ <? _)%nat; [|done].
    by injection Hstr as <-. }
  apply str_of_int_returns in Hstr as ->.
  destruct n as [|p|p]; [lia..|].
  change (pretty (Z.neg p)) with ("-" +:+ pretty p). reflexivity.
Qed.

(** X2 — [get_digits] only ever returns for a non-negative [int] or
    [np.integer]: on a negative integer, on a bool and on any value failing
    the [isinstance] test it raises [ValueError], whatever indices are
    asked for (the empty list included). *)
Theorem get_digits_ValueError (number : pyval) (indices : list Z) :
  (∀ n, int_value number = Some n → n < 0) →
  get_digits number indices = Raises ValueError.
Proof.
  intros Hbad. unfold get_digits. destruct number as [z|b|z|text]; simpl.
  - by rewrite (int_to_digits_negative (PyInt z) z) by auto.
  - by destruct b.
  - by rewrite (int_to_digits_negative (NpInteger z) z) by auto.
  - done.
Qed.

Lemma get_digits_ValueError_witness :
  get_digits (NpInteger (-42)) [] = Raises ValueError
  ∧ get_digits (PyBool false) [0] = Raises ValueError.
Proof.
  split.
  - apply get_digits_ValueError. intros n [= <-]. lia.
  - apply get_digits_ValueError. intros n [=].
Defined.

Lemma py_index_in_range (ds : list Z) (n i : Z) :
  Forall (λ d, 0 ≤ d ≤ 9) ds → digits_value ds = n →
  - Z.of_nat (length ds) ≤ i < Z.of_nat (length ds) →
  py_index ds i =
    Returns ((n / 10 ^ (Z.of_nat (length ds) - 1
                        - py_position (Z.of_nat (length ds)) i)) mod 10).
Proof.
  intros Hall Hvalue Hi. unfold py_index, py_position.
  set (pos := if i <? 0 then Z.of_nat (length ds) + i else i).
  assert (0 ≤ pos < Z.of_nat (length ds)) as Hpos
    by (unfold pos; destruct (i <? 0) eqn:?; lia).
  assert ((0 <=? pos) && (pos <? Z.of_nat (length ds)) = true) as ->
    by (apply andb_true_iff; lia).
  destruct (lookup_lt_is_Some_2 ds (Z.to_nat pos)) as [d Hd]; [lia|].
  rewrite Hd. f_equal.
  rewrite (digits_value_lookup ds (Z.to_nat pos) d Hall Hd), Hvalue.
  by rewrite Z2Nat.id by lia.
Qed.

Lemma py_index_below {A} (l : list A) i :
  i < - Z.of_nat (length l) → py_index l i = Raises IndexError.
Proof.
  intros Hi. unfold py_index.
  assert ((i <? 0) = true) as -> by lia.
  assert ((0 <=? Z.of_nat (length l) + i) = false) as -> by lia. done.
Qed.

(** X3 — for a non-negative integer with [len] digits and indices all in
    [-len, len), [get_digits] returns, in the order asked, the digit at
    each position counted from the most significant one (negative indices
    from the least significant one): the digit of weight
    10^(len - 1 - position). *)
Theorem get_digits_positional
    (number : pyval) (n : Z) (digits : list Z) (indices : list Z) :
  int_value number = Some n → 0 ≤ n →
  int_to_digits number = Returns digits →
  Forall (λ i, - Z.of_nat (length digits) ≤ i < Z.of_nat (length digits)) indices →
  get_digits number indices =
    Returns ((λ i, (n / 10 ^ (Z.of_nat (length digits) - 1
                              - py_position (Z.of_nat (length digits)) i))
                   mod 10) <$> indices).
Proof.
  intros Hv Hn Hds Hin.
  destruct (int_to_digits_returned_value number n digits Hv Hn Hds)
    as [Hrange Hvalue].
  rewrite (get_digits_of_digits number digits indices); [|by destruct number|done].
  apply comprehension_all_return.
  eapply Forall_impl; [done|]. intros i Hi. by apply py_index_in_range.
Qed.

Lemma get_digits_positional_witness :
  get_digits (PyInt 8978) [0; -1; 2; -4] =
    Returns ((λ i, (8978 / 10 ^ (4 - 1 - py_position 4 i)) mod 10)
               <$> [0; -1; 2; -4]).
Proof.
  apply (get_digits_positional (PyInt 8978) 8978 [8; 9; 7; 8] [0; -1; 2; -4]);
    [reflexivity|lia|reflexivity|].
  repeat constructor; simpl; lia.
Defined.

Lemma get_digits_in_range_returns number n digits indices :
  int_value number = Some n → 0 ≤ n →
  int_to_digits number = Returns digits →
  Forall (λ i, - Z.of_nat (length digits) ≤ i < Z.of_nat (length digits)) indices →
  ∃ result, get_digits number indices = Returns result.
Proof.
  intros Hv Hn Hds Hin.
  destruct (int_to_digits_returned_value number n digits Hv Hn Hds)
    as [Hrange Hvalue].
  rewrite (get_digits_of_digits number digits indices); [|by destruct number|done].
  eexists. apply comprehension_all_return.
  eapply Forall_impl; [done|]. intros i Hi. by apply py_index_in_range.
Qed.

(** X4 — on a non-negative integer with [len] digits, [get_digits] raises
    [IndexError] exactly when some requested index lies outside
    [-len, len). *)
Theorem get_digits_IndexError_iff
    (number : pyval) (n : Z) (digits : list Z) (indices : list Z) :
  int_value number = Some n → 0 ≤ n →
  int_to_digits number = Returns digits →
  get_digits number indices = Raises IndexError
  ↔ Exists (λ i, i < - Z.of_nat (length digits) ∨ Z.of_nat (length digits) ≤ i)
           indices.
Proof.
  intros Hv Hn Hds. split.
  - intros Hraise.
    destruct (decide (Exists (λ i, i < - Z.of_nat (length digits)
                                   ∨ Z.of_nat (length digits) ≤ i) indices))
      as [|Hnone]; [done|].
    apply not_Exists_Forall in Hnone; [|intros i; apply _].
    destruct (get_digits_in_range_returns number n digits indices)
      as [result Hresult]; [done..| |congruence].
    eapply Forall_impl; [done|]. simpl. lia.
  - intros Hout.
    rewrite (get_digits_of_digits number digits indices);
      [|by destruct number|done].
    apply comprehension_raises.
    + apply Forall_forall. intros i _. apply py_index_cases.
    + eapply Exists_impl; [done|]. simpl.
      intros i [Hi|Hi]; [by apply py_index_below|by apply py_index_beyond].
Qed.

Lemma get_digits_IndexError_iff_witness :
  get_digits (PyInt 505) [0; -4] = Raises IndexError
  ↔ Exists (λ i, i < - 3 ∨ 3 ≤ i) [0; -4].
Proof.
  apply (get_digits_IndexError_iff (PyInt 505) 505 [5; 0; 5] [0; -4]);
    [reflexivity|lia|reflexivity].
Defined.

(** * Further properties of the Fibonacci generator *)

(** X5 — memoisation: once [fib_number n] has returned, the table holds the
    entry for [n], and any later call for [n] returns the same number from
    the table alone (no recursion budget is used) and leaves the table as
    it is. *)
Theorem fib_number_memoised (fuel : nat) (n : Z) (cache : gmap Z Z) :
  cache_valid cache → 0 ≤ n → (Z.to_nat n < fuel)%nat →
  ∃ cache',
    fib_number fuel n cache = Some (Returns (F (Z.to_nat n)), cache')
    ∧ ∀ fuel', fib_number fuel' n cache' = Some (Returns (F (Z.to_nat n)), cache').
Proof.
  intros Hvalid Hn Hfuel.
  destruct (fib_number_returns fuel n cache) as (cache' & Hrun & _ & _ & Hentry);
    [done..|].
  exists cache'. split; [done|]. intros fuel'. by apply fib_number_hit.
Qed.

Lemma fib_number_memoised_witness :
  ∃ cache',
    fib_number 21 20 ∅ = Some (Returns (F 20), cache')
    ∧ ∀ fuel', fib_number fuel' 20 cache' = Some (Returns (F 20), cache').
Proof.
  apply (fib_number_memoised 21 20 ∅); [apply cache_valid_empty|lia|simpl; lia].
Defined.

Lemma F_succ_succ n : F (S (S n)) = F (S n) + F n.
Proof.
  pose proof (F_step (Z.of_nat (S (S n))) ltac:(lia)) as Hstep.
  rewrite Nat2Z.id in Hstep.
  replace (Z.to_nat (Z.of_nat (S (S n)) - 1)) with (S n) in Hstep by lia.
  by replace (Z.to_nat (Z.of_nat (S (S n)) - 2)) with n in Hstep by lia.
Qed.

Lemma F_0 : F 0 = 0.
Proof. exact (F_small 0 ltac:(lia)). Qed.
Lemma F_1 : F 1 = 1.
Proof. exact (F_small 1 ltac:(lia)). Qed.

Lemma F_nonneg_pair n : 0 ≤ F n ∧ 0 ≤ F (S n).
Proof.
  induction n as [|n [IH1 IH2]].
  - rewrite F_0, F_1. lia.
  - rewrite F_succ_succ. lia.
Qed.

Lemma F_mono i j : (i ≤ j)%nat → F i ≤ F j.
Proof.
  induction 1 as [|j _ IH]; [done|]. etrans; [exact IH|].
  destruct j as [|j].
  - rewrite F_0, F_1. lia.
  - rewrite F_succ_succ. pose proof (F_nonneg_pair j). lia.
Qed.

(** X6 — the entries of any table [fib_number] can have built are
    non-negative and non-decreasing in the index. *)
Theorem cache_values_monotone (cache : gmap Z Z) (i j v w : Z) :
  cache_valid cache →
  cache !! i = Some v → cache !! j = Some w → i ≤ j →
  0 ≤ v ≤ w.
Proof.
  intros Hvalid Hi Hj Hle.
  destruct (Hvalid i v Hi) as [Hi0 ->]. destruct (Hvalid j w Hj) as [Hj0 ->].
  split; [apply F_nonneg_pair|]. apply F_mono. lia.
Qed.

Lemma cache_values_monotone_witness :
  0 ≤ 2 ≤ 5.
Proof.
  apply (cache_values_monotone (<[3 := 2]> (<[5 := 5]> ∅)) 3 5 2 5);
    [|reflexivity|reflexivity|lia].
  intros k v. rewrite lookup_insert. case_decide as H3; [intros [= <-]|].
  { subst k. split; [lia|]. rewrite F_fast. by vm_compute. }
  rewrite lookup_insert. case_decide as H5; [intros [= <-]|by rewrite lookup_empty].
  subst k. split; [lia|]. rewrite F_fast. by vm_compute.
Defined.

(** F(1476) is the last Fibonacci number a double can hold. *)
Lemma F_below_1477_fit : Forall (λ i, int_fits_f64 (F i) = true) (seq 0 1477).
Proof.
  apply Forall_forall. intros i Hi. rewrite F_fast. revert i Hi.
  apply Forall_forall. apply (bool_decide_unpack _). by vm_compute.
Qed.

Lemma F_1477_overflows : float_of_int (F 1477) = Raises OverflowError.
Proof. rewrite F_fast. by vm_compute. Qed.

Lemma fill_sequence_app fuel indices1 indices2 : ∀ sequence cache sequence' cache',
  fill_sequence fuel indices1 sequence cache = Some (Returns sequence', cache') →
  fill_sequence fuel (indices1 ++ indices2) sequence cache =
    fill_sequence fuel indices2 sequence' cache'.
Proof.
  induction indices1 as [|i indices1 IH]; intros sequence cache sequence' cache'.
  - by intros [= -> ->].
  - simpl. unfold mbind, call_bind.
    destruct (fib_number fuel i cache) as [[[x|e] c1]|]; [|done..].
    destruct (lift (float_of_int x) c1) as [[[v|e] c2]|]; [|done..].
    apply IH.
Qed.

Lemma fill_sequence_cons fuel i rest sequence :
  fill_sequence fuel (i :: rest) sequence =
    (x ← fib_number fuel i;
     v ← lift (float_of_int x);
     fill_sequence fuel rest (<[Z.to_nat i := v]> sequence)).
Proof. reflexivity. Qed.

(** X7 — for 0 to 1477 elements [fib_sequence] returns, from any table, an
    array of that many doubles; entry [i] is the double nearest to F(i)
    (round to nearest, ties to even), and it is finite. *)
Theorem fib_sequence_upto_1477 (fuel : nat) (n_elements : Z) (cache : gmap Z Z) :
  cache_valid cache → 0 ≤ n_elements ≤ 1477 → (Z.to_nat n_elements ≤ fuel)%nat →
  ∃ sequence cache',
    fib_sequence fuel n_elements cache = Some (Returns sequence, cache')
    ∧ length sequence = Z.to_nat n_elements
    ∧ ∀ i, (i < Z.to_nat n_elements)%nat →
        sequence !! i = Some (f64_of_Z (F i)) ∧ int_fits_f64 (F i) = true.
Proof.
  intros Hvalid Hn Hfuel.
  assert (Forall (λ i, int_fits_f64 (F i) = true) (seq 0 (Z.to_nat n_elements)))
    as Hfits.
  { apply Forall_forall. intros i Hi. apply elem_of_seq in Hi.
    apply (proj1 (Forall_forall _ _) F_below_1477_fit). apply elem_of_seq. lia. }
  destruct (fib_sequence_returns fuel n_elements cache)
    as (cache' & Hrun & _); [done|lia|done..|].
  eexists _, cache'. split_and!; [done| |].
  - by rewrite length_fmap, length_seq.
  - intros i Hi. split.
    + rewrite list_lookup_fmap, lookup_seq_lt by done. reflexivity.
    + apply (proj1 (Forall_forall _ _) Hfits). apply elem_of_seq. lia.
Qed.

Lemma fib_sequence_upto_1477_witness :
  ∃ sequence cache',
    fib_sequence 100 100 ∅ = Some (Returns sequence, cache')
    ∧ length sequence = 100%nat
    ∧ ∀ i, (i < 100)%nat →
        sequence !! i = Some (f64_of_Z (F i)) ∧ int_fits_f64 (F i) = true.
Proof.
  apply (fib_sequence_upto_1477 100 100 ∅);
    [apply cache_valid_empty|lia|simpl; lia].
Defined.



(** * Further properties of [digit_occurrences] *)

Lemma comprehension_returns_Forall {A B} (f : A → outcome B) (P : B → Prop) xs ys :
  (∀ x y, f x = Returns y → P y) →
  comprehension f xs = Returns ys → Forall P ys.
Proof.
  intros Hf. revert ys. induction xs as [|x xs IH]; intros ys; simpl.
  - intros [= <-]. constructor.
  - destruct (f x) as [y|e] eqn:Hx; simpl; [|done].
    destruct (comprehension f xs) as [ys'|e]; simpl; [|done].
    intros [= <-]. constructor; [by eapply Hf|by apply IH].
Qed.

Lemma py_int_of_char_range c d : py_int_of_char c = Returns d → 0 ≤ d ≤ 9.
Proof.
  unfold py_int_of_char.
  destruct (_ && _) eqn:Hc; [|done]. apply andb_true_iff in Hc.
  intros [= <-]. lia.
Qed.

Lemma py_index_elem_of {A} (l : list A) i x : py_index l i = Returns x → x ∈ l.
Proof.
  unfold py_index. destruct (_ && _); [|done].
  destruct (l !! _) eqn:Hl; [|done]. intros [= <-].
  by eapply list_elem_of_lookup_2.
Qed.

(** Whatever [get_digits] returns consists of decimal digits. *)
Lemma get_digits_range number indices ds :
  get_digits number indices = Returns ds → Forall (λ d, 0 ≤ d ≤ 9) ds.
Proof.
  unfold get_digits. destruct (negb _); [done|].
  destruct (int_to_digits number) as [digits|e] eqn:Hdigits; simpl; [|done].
  assert (Forall (λ d, 0 ≤ d ≤ 9) digits) as Hrange.
  { unfold int_to_digits in Hdigits.
    destruct (py_str number) as [text|e]; simpl in Hdigits; [|done].
    eapply comprehension_returns_Forall; [|exact Hdigits].
    apply py_int_of_char_range. }
  apply comprehension_returns_Forall. intros i x Hx.
  apply (proj1 (Forall_forall _ _) Hrange). by eapply py_index_elem_of.
Qed.

Lemma first_digits_range sequence digit_index ds :
  first_digits sequence digit_index = Returns ds → Forall (λ d, 0 ≤ d ≤ 9) ds.
Proof.
  intros Hds. apply first_digits_Forall2 in Hds.
  induction Hds as [|number d sequence ds Hget _ IH]; constructor; [|done].
  apply get_digits_range in Hget. by apply Forall_cons in Hget as [? _].
Qed.

Lemma tally_nonempty_sorted ds exclude_zero :
  Exists (counted exclude_zero) ds →
  merge_sort key_le (map_to_list (tally ds exclude_zero)) ≠ [].
Proof.
  intros Hex Hnil. apply Exists_exists in Hex as (d & Hin & Hcounted).
  assert (map_to_list (tally ds exclude_zero) = []) as Hempty.
  { apply Permutation_nil_r. rewrite <-Hnil. symmetry.
    apply merge_sort_Permutation. }
  apply map_to_list_empty_iff in Hempty.
  pose proof (tally_lookup ds exclude_zero d) as Hlookup.
  rewrite Hempty, lookup_empty, decide_True in Hlookup; done.
Qed.

(** X9 — [digit_occurrences] returns exactly when every element yields a
    digit at the requested index and at least one of these digits is
    counted (is not an excluded 0). *)
Theorem digit_occurrences_returns_iff
    (sequence : list pyval) (digit_index : Z) (exclude_zero : bool) :
  (∃ digits counts,
     digit_occurrences sequence digit_index exclude_zero = Returns (digits, counts))
  ↔ ∃ first_digits_list,
      first_digits sequence digit_index = Returns first_digits_list
      ∧ Exists (counted exclude_zero) first_digits_list.
Proof.
  split.
  - intros (digits & counts & Hret).
    apply digit_occurrences_returns in Hret
      as (ds & sorted & Hds & Hsorted & Hne & _).
    exists ds. split; [done|].
    destruct sorted as [|[d c] sorted]; [done|].
    assert ((d, c) ∈ map_to_list (tally ds exclude_zero)) as Hin.
    { rewrite <-(merge_sort_Permutation key_le), <-Hsorted. left. }
    apply elem_of_map_to_list in Hin. rewrite tally_lookup in Hin.
    case_decide as Hcase; [|done]. destruct Hcase as [Hcounted Hd].
    apply Exists_exists. eauto.
  - intros (ds & Hds & Hex). unfold digit_occurrences. rewrite Hds. simpl.
    pose proof (tally_nonempty_sorted ds exclude_zero Hex) as Hne.
    destruct (merge_sort key_le _) as [|p sorted]; [done|].
    simpl. eauto.
Qed.

(** X10 — the digits [digit_occurrences] returns are exactly the counted
    digits that occur at the requested index; each lies between 0 and 9
    (between 1 and 9 when zeros are excluded) and each count is at least 1. *)
Theorem digit_occurrences_digits
    (sequence : list pyval) (digit_index : Z) (exclude_zero : bool)
    (digits counts : list Z) :
  digit_occurrences sequence digit_index exclude_zero = Returns (digits, counts) →
  ∃ first_digits_list,
    first_digits sequence digit_index = Returns first_digits_list
    ∧ (∀ d, d ∈ digits ↔ d ∈ first_digits_list ∧ counted exclude_zero d)
    ∧ Forall (λ d, (if exclude_zero then 1 else 0) ≤ d ≤ 9) digits
    ∧ Forall (λ c, 1 ≤ c) counts.
Proof.
  intros Hret.
  apply digit_occurrences_returns in Hret
    as (ds & sorted & Hds & Hsorted & _ & -> & ->).
  assert (sorted ≡ₚ map_to_list (tally ds exclude_zero)) as Hperm
    by (rewrite Hsorted; apply merge_sort_Permutation).
  pose proof (first_digits_range _ _ _ Hds) as Hrange.
  assert (∀ d c, (d, c) ∈ sorted ↔
            (counted exclude_zero d ∧ d ∈ ds) ∧ c = occurrences_of d ds)
    as Hitems.
  { intros d c. rewrite Hperm, elem_of_map_to_list, tally_lookup.
    case_decide as Hc; [|split; [done|by intros [? _]]].
    split; [by intros [= <-]|by intros [_ ->]]. }
  exists ds. split_and!; [done| | |].
  - intros d. rewrite list_elem_of_fmap. split.
    + intros ([d' c] & -> & Hin). by apply Hitems in Hin as [[? ?] _].
    + intros [Hd Hcounted]. exists (d, occurrences_of d ds).
      split; [done|]. by apply Hitems.
  - apply Forall_fmap, Forall_forall. intros [d c] Hin. simpl.
    apply Hitems in Hin as [[Hcounted Hd] _].
    pose proof (proj1 (Forall_forall _ _) Hrange d Hd) as Hd9. simpl in Hd9.
    destruct exclude_zero; [|lia].
    assert (d ≠ 0) by (intros ->; by apply Hcounted). lia.
  - apply Forall_fmap, Forall_forall. intros [d c] Hin. simpl.
    apply Hitems in Hin as [[_ Hd] ->].
    apply occurrences_of_pos in Hd. lia.
Qed.

Lemma digit_occurrences_digits_witness :
  ∃ first_digits_list,
    first_digits (PyInt <$> [30; 101; 305]) 1 = Returns first_digits_list
    ∧ (∀ d, d ∈ [0] ↔ d ∈ first_digits_list ∧ counted false d)
    ∧ Forall (λ d, 0 ≤ d ≤ 9) [0]
    ∧ Forall (λ c, 1 ≤ c) [3].
Proof.
  apply (digit_occurrences_digits (PyInt <$> [30; 101; 305]) 1 false [0] [3]).
  vm_compute. reflexivity.
Defined.

Lemma comprehension_Permutation {A B} (f : A → outcome B) xs xs' :
  xs ≡ₚ xs' → ∀ ys,
  comprehension f xs = Returns ys →
  ∃ ys', comprehension f xs' = Returns ys' ∧ ys ≡ₚ ys'.
Proof.
  induction 1 as [|x xs xs' _ IH|x1 x2 xs|xs1 xs2 xs3 _ IH1 _ IH2]; intros ys; simpl.
  - intros [= <-]. by exists [].
  - destruct (f x) as [y|e]; simpl; [|done].
    destruct (comprehension f xs) as [ys0|e]; simpl; [|done].
    intros [= <-]. destruct (IH ys0 eq_refl) as (ys' & -> & Hperm).
    simpl. exists (y :: ys'). split; [done|]. by constructor.
  - destruct (f x2) as [y2|e]; simpl; [|done].
    destruct (f x1) as [y1|e]; simpl; [|done].
    destruct (comprehension f xs) as [ys0|e]; simpl; [|done].
    intros [= <-]. exists (y1 :: y2 :: ys0). split; [done|]. constructor.
  - intros Hys. destruct (IH1 ys Hys) as (ys2 & Hys2 & Hperm2).
    destruct (IH2 ys2 Hys2) as (ys3 & Hys3 & Hperm3).
    exists ys3. split; [done|]. by etrans.
Qed.

Lemma occurrences_of_Permutation d ds ds' :
  ds ≡ₚ ds' → occurrences_of d ds = occurrences_of d ds'.
Proof. intros Hperm. unfold occurrences_of. by rewrite Hperm. Qed.

Lemma tally_Permutation ds ds' exclude_zero :
  ds ≡ₚ ds' → tally ds exclude_zero = tally ds' exclude_zero.
Proof.
  intros Hperm. apply map_eq. intros d. rewrite !tally_lookup.
  rewrite (occurrences_of_Permutation d ds ds' Hperm).
  assert (d ∈ ds ↔ d ∈ ds') as Hin by (by rewrite Hperm).
  repeat case_decide; try done; tauto.
Qed.

(** X11 — the result of [digit_occurrences] does not depend on the order of
    the sequence: if it returns on a sequence it returns the same pair of
    arrays on every rearrangement of it. *)
Theorem digit_occurrences_order_independent
    (sequence sequence' : list pyval) (digit_index : Z) (exclude_zero : bool)
    (result : list Z * list Z) :
  sequence ≡ₚ sequence' →
  digit_occurrences sequence digit_index exclude_zero = Returns result →
  digit_occurrences sequence' digit_index exclude_zero = Returns result.
Proof.
  intros Hperm. unfold digit_occurrences.
  destruct (first_digits sequence digit_index) as [ds|e] eqn:Hds; simpl; [|done].
  destruct (comprehension_Permutation _ _ _ Hperm ds Hds) as (ds' & Hds' & Hperm').
  unfold first_digits in *. rewrite Hds'. simpl.
  by rewrite (tally_Permutation ds ds' exclude_zero Hperm').
Qed.

Lemma digit_occurrences_order_independent_witness :
  digit_occurrences (PyInt <$> [7; 12; 75; 1]) 0 true = Returns ([1; 7], [2; 2]).
Proof.
  apply (digit_occurrences_order_independent (PyInt <$> [12; 7; 75; 1])).
  - simpl. apply perm_swap.
  - vm_compute. reflexivity.
Defined.

Lemma comprehension_first_failure {A B} (f : A → outcome B) good x rest e :
  Forall (λ a, ∃ b, f a = Returns b) good → f x = Raises e →
  comprehension f (good ++ x :: rest) = Raises e.
Proof.
  intros Hgood Hx. induction Hgood as [|a good [b Ha] _ IH]; simpl.
  - by rewrite Hx.
  - by rewrite Ha, IH.
Qed.

(** X12 — [digit_occurrences] stops at the first element whose digit
    cannot be taken and raises that element's exception ([ValueError] for a
    non-integer or negative element, [IndexError] for a too short one);
    later elements play no part. *)
Theorem digit_occurrences_first_failure
    (good rest : list pyval) (bad : pyval) (digit_index : Z)
    (exclude_zero : bool) (e : exn) :
  Forall (λ v, ∃ d, get_digits v [digit_index] = Returns [d]) good →
  get_digits bad [digit_index] = Raises e →
  digit_occurrences (good ++ bad :: rest) digit_index exclude_zero = Raises e.
Proof.
  intros Hgood Hbad. unfold digit_occurrences, first_digits.
  rewrite (comprehension_first_failure _ good bad rest e); [done| |].
  - eapply Forall_impl; [done|]. intros v [d ->]. by exists d.
  - by rewrite Hbad.
Qed.

Lemma digit_occurrences_first_failure_witness :
  digit_occurrences ([PyInt 12; NpInteger 340] ++ PyOther "5.0" :: [PyInt 7]) 1 true
  = Raises ValueError.
Proof.
  apply digit_occurrences_first_failure.
  - repeat constructor; eexists; reflexivity.
  - reflexivity.
Defined.

(** * Further properties of the theoretical distribution *)

(** X13 — from order 19 on (an order that is itself a 64-bit integer) the
    bound 10^order does not fit a 64-bit integer, so [np.power] has wrapped
    around, and whatever [bendford_dist_] returns then has fewer than the
    9 * 10^(order-1) probabilities of that order. *)
Theorem bendford_dist__beyond_18
    (libm_log10 : f64 → f64) (order : Z) :
  19 ≤ order < 2 ^ 63 →
  np_power 10 order ≠ 10 ^ order
  ∧ ∀ probabilities,
      bendford_dist_ libm_log10 order = Returns probabilities →
      Z.of_nat (length probabilities) < 9 * 10 ^ (order - 1).
Proof.
  intros [Horder _].
  assert (10 ^ 18 ≤ 10 ^ (order - 1)) as Hlow by (apply Z.pow_le_mono_r; lia).
  assert (10 ^ 19 ≤ 10 ^ order) as Hhigh by (apply Z.pow_le_mono_r; lia).
  split.
  - pose proof (wrap64_range (10 ^ order)) as Hwrap. unfold np_power. lia.
  - intros probabilities. rewrite bendford_dist__groups by lia.
    destruct (np_arange _ _) as [digit_combinations|] eqn:Hrange; [|done].
    simpl. intros [= <-]. rewrite length_fmap.
    apply np_arange_returns_size in Hrange. lia.
Qed.

Lemma bendford_dist__beyond_18_witness :
  np_power 10 20 ≠ 10 ^ 20
  ∧ ∀ probabilities,
      bendford_dist_ (λ x, x) 20 = Returns probabilities →
      Z.of_nat (length probabilities) < 9 * 10 ^ (20 - 1).
Proof.
  apply (bendford_dist__beyond_18 (λ x, x) 20). lia.
Defined.

(** * Plot titles and the comparison figure *)

Lemma string_app_assoc (s1 s2 s3 : string) :
  (s1 +:+ s2) +:+ s3 = s1 +:+ s2 +:+ s3.
Proof.
  induction s1 as [|c s1 IH]; [done|].
  change (String c ((s1 +:+ s2) +:+ s3) = String c (s1 +:+ s2 +:+ s3)).
  by rewrite IH.
Qed.

Lemma string_app_empty_r (s : string) : s +:+ "" = s.
Proof.
  induction s as [|c s IH]; [done|].
  change (String c (s +:+ "") = String c s). by rewrite IH.
Qed.

Lemma string_app_inv_head (s s1 s2 : string) : s +:+ s1 = s +:+ s2 → s1 = s2.
Proof.
  induction s as [|c s IH]; [done|].
  change (String c (s +:+ s1) = String c (s +:+ s2) → s1 = s2).
  intros [= ?]. auto.
Qed.


Lemma leading_digit v n :
  int_value v = Some n → 0 ≤ n < 10 ^ 4300 →
  ∃ d, get_digits v [0] = Returns [d] ∧ (d = 0 ↔ n = 0).
Proof.
  intros Hv [Hn Hlimit].
  destruct (int_to_digits_value v n Hv Hn Hlimit) as (ds & Hds & Hrange & Hvalue).
  destruct (get_digits_nonneg v n [0] Hv Hn Hlimit) as (ds' & Hds' & Hget).
  assert (ds' = ds) as -> by congruence.
  pose proof (int_to_digits_length v n (Z.of_nat (length ds) - 1) ds Hv Hn Hds)
    as Hless.
  destruct ds as [|d ds].
  { pose proof (int_to_digits_length v n 1 [] Hv Hn Hds) as Hone.
    unfold digits_value in Hvalue. simpl in Hvalue, Hone. subst n.
    assert (at_most_digits 0 1) as H01 by (unfold at_most_digits; lia).
    apply Hone in H01. lia. }
  exists d. split; [by rewrite Hget|].
  apply Forall_cons in Hrange as [Hd Hrange].
  pose proof (digits_value_bounds ds Hrange) as Hb.
  rewrite digits_value_cons in Hvalue.
  assert (0 < 10 ^ Z.of_nat (length ds)) by (apply Z.pow_pos_nonneg; lia).
  split.
  - intros ->. destruct ds as [|d' ds]; [unfold digits_value in Hvalue; simpl in *; lia|].
    assert (at_most_digits n (Z.of_nat (length (0 :: d' :: ds)) - 1)) as Hshort.
    { unfold at_most_digits. simpl length in *. split; [lia|]. split; [lia|].
      replace (Z.of_nat (S (S (length ds))) - 1) with (Z.of_nat (S (length ds)))
        by lia. lia. }
    apply Hless in Hshort. simpl in Hshort. lia.
  - intros ->. nia.
Qed.

Lemma first_digits_nonneg sequence :
  Forall (λ v, ∃ n, int_value v = Some n ∧ 0 ≤ n < 10 ^ 4300) sequence →
  ∃ ds, first_digits sequence 0 = Returns ds
        ∧ Forall2 (λ v d, ∃ n, int_value v = Some n ∧ (d = 0 ↔ n = 0)) sequence ds.
Proof.
  unfold first_digits. induction 1 as [|v sequence (n & Hv & Hn) _ (ds & Hds & Hrel)].
  - exists []. split; [done|constructor].
  - destruct (leading_digit v n Hv Hn) as (d & Hget & Hd).
    exists (d :: ds). simpl. rewrite Hget. simpl.
    rewrite Hds. simpl. split; [done|]. constructor; [eauto|done].
Qed.

Lemma tally_all_excluded ds exclude_zero :
  Forall (λ d, ¬ counted exclude_zero d) ds → tally ds exclude_zero = ∅.
Proof.
  intros Hall. apply map_eq. intros d. rewrite tally_lookup, lookup_empty.
  case_decide as Hcase; [|done]. destruct Hcase as [Hcounted Hin].
  by destruct (proj1 (Forall_forall _ _) Hall d Hin).
Qed.

Section FigureProperties.
Variable libm_log : f64 → f64.
Variables plotly_color plotly_template : string → bool.

(** X15 — when [bendford_comparison_figure] returns, the figure has
    exactly two traces over the same digits, each digit between 1 and 9;
    the first holds [bendford_dist] of these digits (so no division by
    zero occurs), the second holds each count divided by N, where N, the
    number of elements with a non-zero leading digit, is at least 1; the
    subtitle shows this N when [display_count] is set. *)
Theorem bendford_comparison_figure_data
    (sequence : list pyval) (legend title : string) (display_count : bool)
    (color template : string) (width height : Z) (fig : figure) :
  bendford_comparison_figure libm_log plotly_color plotly_template
    sequence legend title display_count
    color template width height = Returns fig →
  ∃ digits counts first_digits_list,
    digit_occurrences sequence 0 true = Returns (digits, counts)
    ∧ first_digits sequence 0 = Returns first_digits_list
    ∧ let N := Z.of_nat (length (filter (counted true) first_digits_list)) in
      1 ≤ N
      ∧ Forall (λ d, 1 ≤ d ≤ 9) digits
      ∧ figure_traces fig =
          [ Scatter digits (bendford_dist libm_log digits) "Bendford's Law." color;
            Scatter digits ((λ c, f64_div (f64_of_Z c) (f64_of_Z N)) <$> counts)
                    legend "MediumPurple" ]
      ∧ layout_title (figure_layout fig) =
          match title with
          | EmptyString => None
          | _ => Some (_format_title title
                         (Some (if display_count
                                then "N = " +:+ pretty N +:+ "." else "")) 14)
          end.
Proof.
  unfold bendford_comparison_figure.
  destruct (digit_occurrences sequence 0 true) as [[digits counts]|e] eqn:Hocc;
    simpl; [|done].
  unfold _create_comparison_figure.
  destruct (plotly_accepts _ _ _ _ _ _); simpl; [|done].
  intros [= <-].
  pose proof Hocc as Hshape.
  apply digit_occurrences_returns in Hshape
    as (ds & sorted & Hds & Hsorted & Hne & -> & ->).
  assert (sorted ≡ₚ map_to_list (tally ds true)) as Hperm
    by (rewrite Hsorted; apply merge_sort_Permutation).
  assert (np_sum (sorted.*2) = Z.of_nat (length (filter (counted true) ds)))
    as Hsum.
  { rewrite (np_sum_Permutation _ ((map_to_list (tally ds true)).*2))
      by (by rewrite Hperm).
    apply tally_total. }
  pose proof (first_digits_range _ _ _ Hds) as Hrange.
  exists (sorted.*1), (sorted.*2), ds. split_and!; [done..| | | |].
  - destruct sorted as [|[d c] sorted]; [done|].
    assert ((d, c) ∈ map_to_list (tally ds true)) as Hin
      by (rewrite <-Hperm; left).
    apply elem_of_map_to_list in Hin. rewrite tally_lookup in Hin.
    case_decide as Hcase; [|done]. destruct Hcase as [Hcounted Hd].
    assert (d ∈ filter (counted true) ds) as Hf
      by (by apply list_elem_of_filter).
    destruct (filter (counted true) ds); [by apply elem_of_nil in Hf|].
    simpl. lia.
  - apply Forall_fmap, Forall_forall. intros [d c] Hin. simpl.
    rewrite Hperm in Hin. apply elem_of_map_to_list in Hin.
    rewrite tally_lookup in Hin. case_decide as Hcase; [|done].
    destruct Hcase as [Hcounted Hd].
    pose proof (proj1 (Forall_forall _ _) Hrange d Hd) as Hd9. simpl in Hd9.
    assert (d ≠ 0) by (intros ->; by apply Hcounted). lia.
  - simpl. unfold int_div_scalar. by rewrite Hsum.
  - simpl. rewrite Hsum. by destruct title.
Qed.

(** X16 — on a sequence of non-negative integers below 10^4300
    [bendford_comparison_figure] raises [IndexError] when every element is
    0 (the empty sequence included), before anything is plotted; as soon as
    one element is not 0 the counting succeeds, and the call returns a
    figure when the plotting library accepts the colour, the template and
    the size, and raises its [ValueError] otherwise. *)
Theorem bendford_comparison_figure_returns
    (sequence : list pyval) (legend title : string) (display_count : bool)
    (color template : string) (width height : Z) :
  Forall (λ v, ∃ n, int_value v = Some n ∧ 0 ≤ n < 10 ^ 4300) sequence →
  (Forall (λ v, int_value v = Some 0) sequence →
     bendford_comparison_figure libm_log plotly_color plotly_template
       sequence legend title display_count
       color template width height = Raises IndexError)
  ∧ (Exists (λ v, int_value v ≠ Some 0) sequence →
     if plotly_accepts plotly_color plotly_template color template width height
     then ∃ fig,
            bendford_comparison_figure libm_log plotly_color plotly_template
              sequence legend title display_count
              color template width height = Returns fig
     else bendford_comparison_figure libm_log plotly_color plotly_template
            sequence legend title display_count
            color template width height = Raises ValueError).
Proof.
  intros Hseq.
  destruct (first_digits_nonneg sequence Hseq) as (ds & Hds & Hrel).
  unfold bendford_comparison_figure. split.
  - intros Hzero.
    rewrite (digit_occurrences_tally_empty sequence 0 true ds Hds); [done|].
    apply tally_all_excluded.
    clear Hds Hseq. induction Hrel as [|v d sequence ds (n & Hv & Hd) _ IH];
      [constructor|].
    apply Forall_cons in Hzero as [Hv0 Hzero].
    constructor; [|by apply IH].
    intros Hcounted. apply Hcounted. split; [done|]. apply Hd. congruence.
  - intros Hnonzero.
    assert (Exists (counted true) ds) as Hex.
    { clear Hds Hseq. induction Hrel as [|v d sequence ds (n & Hv & Hd) _ IH];
        [by inversion Hnonzero|].
      apply Exists_cons in Hnonzero as [Hv0|Hrest].
      - left. intros [_ ->]. apply Hv0. rewrite Hv. f_equal. by apply Hd.
      - right. by apply IH. }
    pose proof (tally_nonempty_sorted ds true Hex) as Hne.
    unfold digit_occurrences. rewrite Hds. simpl.
    destruct (merge_sort key_le _) as [|p sorted]; [done|]. simpl.
    unfold _create_comparison_figure.
    destruct (plotly_accepts _ _ _ _ _ _); simpl; eauto.
Qed.
End FigureProperties.

Lemma bendford_comparison_figure_data_witness :
  ∃ fig digits counts first_digits_list,
    bendford_comparison_figure (λ x, x) sample_color sample_template
      (PyInt <$> [12; 0; 305; 17])
      "Sample" "Digits" true "red" "plotly_white" 900 700 = Returns fig
    ∧ digit_occurrences (PyInt <$> [12; 0; 305; 17]) 0 true = Returns (digits, counts)
    ∧ first_digits (PyInt <$> [12; 0; 305; 17]) 0 = Returns first_digits_list
    ∧ 1 ≤ Z.of_nat (length (filter (counted true) first_digits_list))
    ∧ Forall (λ d, 1 ≤ d ≤ 9) digits.
Proof.
  destruct (bendford_comparison_figure (λ x, x) sample_color sample_template
              (PyInt <$> [12; 0; 305; 17])
              "Sample" "Digits" true "red" "plotly_white" 900 700)
    as [fig|e] eqn:Hfig; [|by vm_compute in Hfig].
  destruct (bendford_comparison_figure_data (λ x, x) sample_color sample_template
              _ _ _ _ _ _ _ _ fig Hfig)
    as (digits & counts & ds & Hocc & Hds & HN & Hrange & _).
  exists fig, digits, counts, ds. by split_and!.
Defined.

Lemma small_below_str_limit n : 0 ≤ n < 10 ^ 3 → 0 ≤ n < 10 ^ 4300.
Proof.
  intros [Hn Hsmall]. split; [done|].
  eapply Z.lt_le_trans; [exact Hsmall|]. by apply Z.pow_le_mono_r.
Qed.

Lemma bendford_comparison_figure_returns_witness :
  bendford_comparison_figure (λ x, x) sample_color sample_template
    (PyInt <$> [0; 0])
    "Zeros" "Digits" true "red" "plotly_white" 900 700 = Raises IndexError
  ∧ (∃ fig, bendford_comparison_figure (λ x, x) sample_color sample_template
              (PyInt <$> [0; 40])
              "Sample" "Digits" true "red" "plotly_white" 900 700 = Returns fig)
  ∧ bendford_comparison_figure (λ x, x) sample_color sample_template
      (PyInt <$> [0; 40])
      "Sample" "Digits" true "red" "plotly_white" 900 5 = Raises ValueError.
Proof.
  assert (Forall (λ v, ∃ n, int_value v = Some n ∧ 0 ≤ n < 10 ^ 4300)
            (PyInt <$> [0; 0])) as Hzeros
    by (repeat constructor; exists 0;
        (split; [reflexivity|apply small_below_str_limit; lia])).
  assert (Forall (λ v, ∃ n, int_value v = Some n ∧ 0 ≤ n < 10 ^ 4300)
            (PyInt <$> [0; 40])) as Hsample
    by (repeat constructor; eexists;
        (split; [reflexivity|apply small_below_str_limit; lia])).
  assert (Exists (λ v, int_value v ≠ Some 0) (PyInt <$> [0; 40])) as Hnonzero
    by (right; left; simpl; discriminate).
  destruct (bendford_comparison_figure_returns (λ x, x) sample_color
              sample_template (PyInt <$> [0; 0]) "Zeros" "Digits" true
              "red" "plotly_white" 900 700 Hzeros) as [Hempty _].
  destruct (bendford_comparison_figure_returns (λ x, x) sample_color
              sample_template (PyInt <$> [0; 40]) "Sample" "Digits" true
              "red" "plotly_white" 900 700 Hsample) as [_ Hplot].
  destruct (bendford_comparison_figure_returns (λ x, x) sample_color
              sample_template (PyInt <$> [0; 40]) "Sample" "Digits" true
              "red" "plotly_white" 900 5 Hsample) as [_ Hrefused].
  split_and!.
  - apply Hempty. by repeat constructor.
  - exact (Hplot Hnonzero).
  - exact (Hrefused Hnonzero).
Defined.


(** * The generator, the counter and the digit parser together *)

(** X17 — the array [fib_sequence] returns cannot be fed to
    [digit_occurrences] as it is: for 1 to 1477 elements its items are
    float64 scalars, and [digit_occurrences] raises [ValueError] on the
    first of them. *)
Theorem digit_occurrences_of_fib_sequence
    (float_str : f64 → string) (fuel : nat) (n_elements : Z) (cache : gmap Z Z)
    (digit_index : Z) (exclude_zero : bool) :
  cache_valid cache → 1 ≤ n_elements ≤ 1477 → (Z.to_nat n_elements ≤ fuel)%nat →
  ∃ sequence cache',
    fib_sequence fuel n_elements cache = Some (Returns sequence, cache')
    ∧ digit_occurrences (float64_items float_str sequence) digit_index exclude_zero
      = Raises ValueError.
Proof.
  intros Hvalid Hn Hfuel.
  destruct (fib_sequence_returns fuel n_elements cache)
    as (cache' & Hrun & _); [done|lia|done| |].
  { apply Forall_forall. intros i Hi. apply elem_of_seq in Hi.
    apply (proj1 (Forall_forall _ _) F_below_1477_fit). apply elem_of_seq. lia. }
  eexists _, cache'. split; [exact Hrun|].
  destruct (Z.to_nat n_elements) as [|k] eqn:Hk; [lia|].
  rewrite <-cons_seq. unfold float64_items. rewrite !fmap_cons.
  unfold digit_occurrences, first_digits. reflexivity.
Qed.

Lemma digit_occurrences_of_fib_sequence_witness :
  ∃ sequence cache',
    fib_sequence 100 100 ∅ = Some (Returns sequence, cache')
    ∧ digit_occurrences (float64_items (λ _, "0.0") sequence) 0 true
      = Raises ValueError.
Proof.
  apply (digit_occurrences_of_fib_sequence (λ _, "0.0") 100 100 ∅ 0 true);
    [apply cache_valid_empty|lia|simpl; lia].
Defined.

(** A call whose argument is at most the budget (and the budget at least 1)
    returns, from any valid table. *)
Lemma fib_number_returns_within fuel : ∀ n cache,
  cache_valid cache → 0 ≤ n → (1 ≤ fuel)%nat → (Z.to_nat n ≤ fuel)%nat →
  ∃ cache', fib_number fuel n cache = Some (Returns (F (Z.to_nat n)), cache')
            ∧ cache_valid cache'.
Proof.
  induction fuel as [|fuel IH]; intros n cache Hvalid Hn Hpos Hfuel; [lia|].
  destruct (cache !! n) as [v|] eqn:Hlookup.
  { destruct (Hvalid n v Hlookup) as [_ ->].
    exists cache. by rewrite (fib_number_hit _ _ _ _ Hlookup). }
  simpl. unfold lru_cache. rewrite Hlookup.
  assert ((n <? 0) = false) as -> by lia.
  destruct (n <? 2) eqn:Hsmall.
  - unfold mret, call_ret.
    exists (<[n := n]> cache). rewrite (F_small n) by lia. split; [done|].
    rewrite <-(F_small n) at 2 by lia. by apply cache_valid_insert.
  - destruct (IH (n - 1) cache) as (c1 & Hrun1 & Hvalid1); [done|lia|lia|lia|].
    destruct (IH (n - 2) c1) as (c2 & Hrun2 & Hvalid2); [done|lia|lia|lia|].
    unfold mbind, call_bind. rewrite Hrun1, Hrun2.
    unfold mret, call_ret. rewrite <-F_step by lia.
    exists (<[n := F (Z.to_nat n)]> c2). split; [done|].
    by apply cache_valid_insert.
Qed.

(** With no entry at 1..n in the table, a budget below [n] is used up
    before the recursion reaches a base case. *)
Lemma fib_number_too_deep fuel : ∀ n cache,
  (∀ k, 1 ≤ k ≤ n → cache !! k = None) → (fuel < Z.to_nat n)%nat →
  fib_number fuel n cache = None.
Proof.
  induction fuel as [|fuel IH]; intros n cache Hcold Hfuel.
  - simpl. by rewrite Hcold by lia.
  - simpl. unfold lru_cache. rewrite Hcold by lia.
    assert ((n <? 0) = false) as -> by lia.
    assert ((n <? 2) = false) as -> by lia.
    unfold mbind, call_bind.
    rewrite (IH (n - 1) cache); [done| |lia].
    intros k Hk. apply Hcold. lia.
Qed.

(** X18 — recursion depth of a cold call: from the empty table,
    [fib_number n] for [n >= 1] completes exactly when the budget of
    nested invocations is at least [n]. *)
Theorem fib_number_cold_depth (fuel : nat) (n : Z) :
  1 ≤ n →
  is_Some (fib_number fuel n ∅) ↔ (Z.to_nat n ≤ fuel)%nat.
Proof.
  intros Hn. split.
  - intros [r Hr]. destruct (decide (Z.to_nat n ≤ fuel)%nat); [done|].
    rewrite (fib_number_too_deep fuel n ∅) in Hr; [done| |lia].
    intros k _. apply lookup_empty.
  - intros Hfuel.
    destruct (fib_number_returns_within fuel n ∅) as (c & -> & _);
      [apply cache_valid_empty|lia|lia|done|]. eauto.
Qed.

Lemma fib_number_cold_depth_witness :
  is_Some (fib_number 30 30 ∅) ↔ (Z.to_nat 30 ≤ 30)%nat.
Proof. apply fib_number_cold_depth. lia. Defined.

Lemma fill_sequence_entries fuel indices : ∀ sequence cache,
  cache_valid cache →
  Forall (λ i, 0 ≤ i ∧ (Z.to_nat i < fuel)%nat
               ∧ int_fits_f64 (F (Z.to_nat i)) = true) indices →
  ∃ result cache',
    fill_sequence fuel indices sequence cache = Some (Returns result, cache')
    ∧ cache ⊆ cache'
    ∧ Forall (λ i, cache' !! i = Some (F (Z.to_nat i))) indices.
Proof.
  induction indices as [|i indices IH]; intros sequence cache Hvalid Hall.
  - exists sequence, cache. by split_and!.
  - apply Forall_cons in Hall as [(Hi & Hfuel & Hfits) Hall].
    destruct (fib_number_returns fuel i cache)
      as (c1 & Hrun & Hvalid1 & Hsub1 & Hentry); [done..|].
    destruct (IH (<[Z.to_nat i := f64_of_Z (F (Z.to_nat i))]> sequence) c1)
      as (result & c2 & Hrest & Hsub2 & Hentries); [done..|].
    exists result, c2. split_and!; [|by etrans|].
    + rewrite fill_sequence_cons. unfold mbind, call_bind at 1. rewrite Hrun.
      unfold call_bind at 1, lift. by rewrite float_of_int_fits.
    + constructor; [|done]. by eapply lookup_weaken.
Qed.

(** X19 — [fib_sequence] warms the table: after a call for up to 1477
    elements every index below [n_elements] has its entry, so a later
    [fib_number] call for such an index returns at once, without any
    recursion and without changing the table. *)
Theorem fib_sequence_warms_cache (fuel : nat) (n_elements : Z) (cache : gmap Z Z) :
  cache_valid cache → 0 ≤ n_elements ≤ 1477 → (Z.to_nat n_elements ≤ fuel)%nat →
  ∃ sequence cache',
    fib_sequence fuel n_elements cache = Some (Returns sequence, cache')
    ∧ ∀ k fuel', 0 ≤ k < n_elements →
        fib_number fuel' k cache' = Some (Returns (F (Z.to_nat k)), cache').
Proof.
  intros Hvalid Hn Hfuel. unfold fib_sequence.
  assert ((n_elements <? 0) = false) as -> by lia.
  destruct (fill_sequence_entries fuel (seqZ 0 n_elements)
              (replicate (Z.to_nat n_elements) f64_zero) cache)
    as (result & cache' & -> & _ & Hentries); [done| |].
  { apply Forall_seqZ. intros i Hi. split_and!; [lia..|].
    apply (proj1 (Forall_forall _ _) F_below_1477_fit). apply elem_of_seq. lia. }
  exists result, cache'. split; [done|]. intros k fuel' Hk.
  apply fib_number_hit.
  apply (proj1 (Forall_seqZ _ _ _) Hentries). lia.
Qed.

Lemma fib_sequence_warms_cache_witness :
  ∃ sequence cache',
    fib_sequence 50 50 ∅ = Some (Returns sequence, cache')
    ∧ ∀ k fuel', 0 ≤ k < 50 →
        fib_number fuel' k cache' = Some (Returns (F (Z.to_nat k)), cache').
Proof.
  apply (fib_sequence_warms_cache 50 50 ∅);
    [apply cache_valid_empty|lia|simpl; lia].
Defined.
